(** * Join-server settings form of the console: schema and form controller

    The development embeds
    - [validation-schema.js] of the join-server form (a Yup schema whose
      rules depend on the context values [$externalJs] and
      [$lorawanVersion]), and
    - [join-server-form/index.js] (the React component that binds the schema
      to the form).

    The schema is written with the combinators of the Yup library.  The
    combinators are given the meaning they have in Yup 0.27 ([mixed.js],
    [object.js], [Lazy.js], [Condition.js]): a schema is a record of
    modifiers, [cast] runs the transforms, falls back on the default and
    type-checks, an object schema casts its fields one after the other. *)

From Stdlib Require Import String List Bool Ascii Arith ZArith Lia.
Import ListNotations.
Open Scope string_scope.
Open Scope list_scope.
Set Warnings "-register-all".

(** ** JavaScript values *)

Module JS.

(** The part of the JavaScript value universe the device record and the form
    values are built from.  An object lists its own enumerable properties in
    insertion order; a property may hold [undefined]. *)
Inductive value : Type :=
| VUndef
| VNull
| VBool (b : bool)
| VStr (s : string)
| VObj (props : list (string * value)).

Fixpoint lookup (k : string) (props : list (string * value)) : option value :=
  match props with
  | [] => None
  | (k', v) :: rest => if String.eqb k k' then Some v else lookup k rest
  end.

(** [o[k]] on an object; a primitive has no property of that name. *)
Definition get (v : value) (k : string) : value :=
  match v with
  | VObj props => match lookup k props with Some x => x | None => VUndef end
  | _ => VUndef
  end.

(** [k in o] / [has(o, k)]. *)
Definition has (v : value) (k : string) : bool :=
  match v with
  | VObj props => match lookup k props with Some _ => true | None => false end
  | _ => false
  end.

(** [Object.keys(o)]. *)
Definition keys (props : list (string * value)) : list string := map fst props.

(** [Boolean(v)]. *)
Definition truthy (v : value) : bool :=
  match v with
  | VUndef | VNull => false
  | VBool b => b
  | VStr s => negb (String.eqb s "")
  | VObj _ => true
  end.

(** [typeof v === 'object'] (which holds of [null] too). *)
Definition typeof_object (v : value) : bool :=
  match v with
  | VNull | VObj _ => true
  | _ => false
  end.

Definition is_undefined (v : value) : bool :=
  match v with VUndef => true | _ => false end.

(** [v == null]. *)
Definition is_absent (v : value) : bool :=
  match v with VUndef | VNull => true | _ => false end.

(** [a === b]: by value on primitives.  Two objects are compared by their
    contents here; the cast of an object hands back its argument itself when
    nothing changed and a differently filled object otherwise, so that on
    the values compared in [cast] this is the comparison by reference. *)
Fixpoint strict_eq (a b : value) {struct a} : bool :=
  match a, b with
  | VUndef, VUndef => true
  | VNull, VNull => true
  | VBool x, VBool y => Bool.eqb x y
  | VStr x, VStr y => String.eqb x y
  | VObj p, VObj q =>
      (fix props_eq (p q : list (string * value)) {struct p} : bool :=
         match p, q with
         | [], [] => true
         | (k, x) :: p', (k', y) :: q' =>
             String.eqb k k' && strict_eq x y && props_eq p' q'
         | _, _ => false
         end) p q
  | _, _ => false
  end.

(** [String(v)] / [v.toString()] for a value that is not [null] or
    [undefined]. *)
Definition to_string (v : value) : string :=
  match v with
  | VUndef => "undefined"
  | VNull => "null"
  | VBool true => "true"
  | VBool false => "false"
  | VStr s => s
  | VObj _ => "[object Object]"
  end.

(** Strings of hexadecimal digits. *)
Definition is_hex_char (c : ascii) : bool :=
  let n := nat_of_ascii c in
  ((48 <=? n) && (n <=? 57) || (97 <=? n) && (n <=? 102)
   || (65 <=? n) && (n <=? 70))%nat.

Definition is_hex (s : string) : bool :=
  forallb is_hex_char (list_ascii_of_string s).

(** A number as the version parser returns it: an integer, or [NaN], which
    is neither below nor at least any number. *)
Inductive number : Type :=
| NaN
| Num (n : Z).

(** [a < b] and [a >= b] against an integer literal. *)
Definition lt (a : number) (b : Z) : bool :=
  match a with
  | NaN => false
  | Num n => Z.ltb n b
  end.

Definition ge (a : number) (b : Z) : bool :=
  match a with
  | NaN => false
  | Num n => Z.leb b n
  end.

(** What a JavaScript computation ends in: a value, or a thrown
    [TypeError]. *)
Inductive completion (A : Type) : Type :=
| Normal (a : A)
| TypeError.
Arguments Normal {A} a.
Arguments TypeError {A}.

End JS.
Export JS.

(** ** The Yup combinators *)

Module Yup.

Section Model.

(** State of the random-bytes generator the default keys are drawn from. *)
Context {rng : Type}.

(** [JSON.parse] as the object schema uses it on a string: the parsed value,
    [null] when parsing throws. *)
Variable JSON_parse : string -> value.

(** The validation context, [options.context]: what [$externalJs] and
    [$lorawanVersion] refer to.  Both read [undefined] when no context is
    passed. *)
Record context : Type := Context {
  externalJs : value;
  lorawanVersion : value
}.

Definition no_context : context :=
  {| externalJs := VUndef; lorawanVersion := VUndef |}.

(** [default(x)]: a value, or a function called at each use. *)
Inductive default_spec : Type :=
| DefaultValue (v : value)
| DefaultFn (f : rng -> value * rng).

Record test : Type := Test {
  test_name : string;
  test_message : string;
  test_fn : value -> bool
}.

(** The modifiers a schema carries.  [_strip], [_nullable] and [_default]
    are own properties, unset until the modifier is called. *)
Record mods : Type := Mods {
  _strip : option bool;
  _nullable : option bool;
  _default : option default_spec;
  transforms : list (value -> value);
  tests : list test
}.

(** A field of an object schema is a schema, a schema with a [when]
    condition (resolved against the context before use) or [Yup.lazy]
    (resolved against the value and the context). *)
Inductive schema : Type :=
| SString (m : mods)
| SBoolean (m : mods)
| SObject (m : mods) (fields : list (string * field))
with field : Type :=
| FSchema (s : schema)
| FWhen (base : schema) (resolved : context -> schema)
| FLazy (f : value -> context -> schema).

Definition mods_of (s : schema) : mods :=
  match s with
  | SString m | SBoolean m | SObject m _ => m
  end.

Definition fields_of (s : schema) : list (string * field) :=
  match s with
  | SObject _ fields => fields
  | _ => []
  end.

Definition with_mods (f : mods -> mods) (s : schema) : schema :=
  match s with
  | SString m => SString (f m)
  | SBoolean m => SBoolean (f m)
  | SObject m fields => SObject (f m) fields
  end.

(** *** Type checks and coercions *)

Definition type_check (s : schema) (v : value) : bool :=
  match s, v with
  | SString _, VStr _ => true
  | SBoolean _, VBool _ => true
  | SObject _ _, VObj _ => true
  | _, _ => false
  end.

(** [schema.isType(v)]. *)
Definition is_type (s : schema) (v : value) : bool :=
  match _nullable (mods_of s), v with
  | Some true, VNull => true
  | _, _ => type_check s v
  end.

(** The transform of [string()]: a string stays, [null] and [undefined]
    stay, anything else is turned into its [toString()]. *)
Definition string_coerce (v : value) : value :=
  match v with
  | VStr _ | VNull | VUndef => v
  | _ => VStr (to_string v)
  end.

Definition lower (c : ascii) : ascii :=
  let n := nat_of_ascii c in
  if ((65 <=? n) && (n <=? 90))%nat then ascii_of_nat (n + 32) else c.

Fixpoint lowercase (s : string) : string :=
  match s with
  | EmptyString => EmptyString
  | String c s' => String (lower c) (lowercase s')
  end.

(** The transform of [boolean()]: [/^(true|1)$/i] and [/^(false|0)$/i] are
    tried on a value that is not a boolean. *)
Definition boolean_coerce (v : value) : value :=
  match v with
  | VBool _ => v
  | _ =>
      let t := lowercase (to_string v) in
      if String.eqb t "true" || String.eqb t "1" then VBool true
      else if String.eqb t "false" || String.eqb t "0" then VBool false
      else v
  end.

(** The transform of [object()]: a string is parsed as JSON; what is not
    an object afterwards becomes [null]. *)
Definition object_coerce (v : value) : value :=
  let v' := match v with VStr s => JSON_parse s | _ => v end in
  match v' with
  | VObj _ => v'
  | _ => VNull
  end.

Definition no_mods (coerce : value -> value) : mods :=
  {| _strip := None; _nullable := None; _default := None;
     transforms := [coerce]; tests := [] |}.

(** *** Constructors and modifiers *)

Definition string_ : schema := SString (no_mods string_coerce).
Definition boolean_ : schema := SBoolean (no_mods boolean_coerce).
Definition object_ : schema := SObject (no_mods object_coerce) [].

Definition strip : schema -> schema :=
  with_mods (fun m => {| _strip := Some true; _nullable := _nullable m;
                         _default := _default m; transforms := transforms m;
                         tests := tests m |}).

Definition nullable : schema -> schema :=
  with_mods (fun m => {| _strip := _strip m; _nullable := Some true;
                         _default := _default m; transforms := transforms m;
                         tests := tests m |}).

Definition default (d : default_spec) : schema -> schema :=
  with_mods (fun m => {| _strip := _strip m; _nullable := _nullable m;
                         _default := Some d; transforms := transforms m;
                         tests := tests m |}).

Definition transform (f : value -> value) : schema -> schema :=
  with_mods (fun m => {| _strip := _strip m; _nullable := _nullable m;
                         _default := _default m;
                         transforms := transforms m ++ [f];
                         tests := tests m |}).

Definition add_test (t : test) : schema -> schema :=
  with_mods (fun m => {| _strip := _strip m; _nullable := _nullable m;
                         _default := _default m; transforms := transforms m;
                         tests := tests m ++ [t] |}).

(** [string().matches(regex, message)]; the regular expression is given by
    the strings it accepts. *)
Definition matches (regex : string -> bool) (message : string) : schema -> schema :=
  add_test {| test_name := "matches"; test_message := message;
              test_fn := fun v => match v with
                                  | VStr s => regex s
                                  | _ => is_absent v
                                  end |}.

(** [string().length(n, message)]. *)
Definition length (n : nat) (message : string) : schema -> schema :=
  add_test {| test_name := "length"; test_message := message;
              test_fn := fun v => match v with
                                  | VStr s => Nat.eqb (String.length s) n
                                  | _ => is_absent v
                                  end |}.

(** [sortFields]: the order in which an object schema visits its fields
    ([_nodes]).  The fields are sorted topologically by the sibling fields
    they refer to and the result is reversed; the fields of this form refer
    to the context only, for which the sort keeps the order of the shape, so
    that the fields are visited last to first. *)
Definition sortFields (fields : list (string * field)) : list (string * field) :=
  rev fields.

(** [object().shape(fields)]: an object schema keeps its fields in the order
    it visits them. *)
Definition shape (fields : list (string * field)) (s : schema) : schema :=
  match s with
  | SObject m old => SObject m (sortFields fields ++ old)
  | _ => s
  end.

Definition pick {A : Type} (mine theirs : option A) : option A :=
  match theirs with Some _ => theirs | None => mine end.

(** [base.concat(other)]: what [other] sets wins, transforms and tests of
    both are kept, those of [base] first. *)
Definition concat (base other : schema) : schema :=
  let b := mods_of base in
  with_mods (fun o => {| _strip := pick (_strip b) (_strip o);
                         _nullable := pick (_nullable b) (_nullable o);
                         _default := pick (_default b) (_default o);
                         transforms := transforms b ++ transforms o;
                         tests := tests b ++ tests o |}) other.

(** [base.when(keys, { is, then, otherwise })] with functions for the
    branches, and with schemas for the branches (which are concatenated to
    the base). *)
Definition when_fn (is_ : context -> bool)
    (then_ otherwise : schema -> schema) (base : schema) : field :=
  FWhen base (fun ctx => if is_ ctx then then_ base else otherwise base).

Definition when_schema (is_ : context -> bool)
    (then_ otherwise : schema) (base : schema) : field :=
  when_fn is_ (fun s => concat s then_) (fun s => concat s otherwise) base.

(** [is: false] and [is: true] compare with [===]. *)
Definition is_false (v : value) : bool := strict_eq v (VBool false).
Definition is_true (v : value) : bool := strict_eq v (VBool true).

(** *** [default()], [cast] and [validate] *)

Definition run_default (d : default_spec) (r : rng) : value * rng :=
  match d with
  | DefaultValue v => (v, r)
  | DefaultFn f => f r
  end.

(** [schema.default()].  An object schema without a default of its own
    builds one from its fields: a field contributes [field.default()] when it
    has that method, taken on the field as it stands (its [when] conditions
    not resolved); a lazy field has no such method and contributes
    [undefined].  An object schema without fields has [undefined]. *)
Fixpoint get_default (s : schema) (r : rng) {struct s} : value * rng :=
  match s with
  | SString m | SBoolean m =>
      match _default m with
      | Some d => run_default d r
      | None => (VUndef, r)
      end
  | SObject m fields =>
      match _default m with
      | Some d => run_default d r
      | None =>
          match fields with
          | [] => (VUndef, r)
          | _ =>
              let '(props, r') :=
                (fix build (fs : list (string * field)) (r : rng) {struct fs}
                   : list (string * value) * rng :=
                   match fs with
                   | [] => ([], r)
                   | (k, f) :: fs' =>
                       let '(v, r1) :=
                         match f with
                         | FSchema s' => get_default s' r
                         | FWhen base _ => get_default base r
                         | FLazy _ => (VUndef, r)
                         end in
                       let '(ps, r2) := build fs' r1 in
                       ((k, v) :: ps, r2)
                   end) fields r in
              (VObj props, r')
          end
      end
  end.

(** [mixed._cast]: the transforms run on a value that is not [undefined];
    an [undefined] result takes the schema's own default when one is set. *)
Definition mixed_cast (m : mods) (v : value) (r : rng) : value * rng :=
  let v' := if is_undefined v then v
            else fold_left (fun x f => f x) (transforms m) v in
  match v', _default m with
  | VUndef, Some d => run_default d r
  | _, _ => (v', r)
  end.

(** The check at the end of [mixed.cast]: a value other than [undefined]
    whose cast is not of the schema's type throws, unless [assert: false]
    was passed. *)
Definition checked (assert : bool) (s : schema) (v : value)
    (res : value * rng) : completion (value * rng) :=
  if negb (is_undefined v) && assert && negb (is_type s (fst res))
  then TypeError else Normal res.

Definition resolve (f : field) (ctx : context) (v : value) : schema :=
  match f with
  | FSchema s => s
  | FWhen _ resolved => resolved ctx
  | FLazy g => g v ctx
  end.

Definition stripped (s : schema) : bool :=
  match _strip (mods_of s) with Some true => true | _ => false end.

Definition mem (k : string) (ks : list string) : bool :=
  existsb (String.eqb k) ks.

(** The properties of the value the schema has no field for: they are
    carried over as they are. *)
Definition unknown_props (fields : list (string * field))
    (props : list (string * value)) : list (string * value) :=
  filter (fun kv => negb (mem (fst kv) (map fst fields))) props.

(** [schema.cast(v, { context, assert })].  The cast of an object visits the
    fields of the schema, then the other properties of the value; a field
    whose resolved schema is stripped is left out, any other is cast and
    kept unless the result is [undefined]; the value itself is returned when
    no property changed. *)
Fixpoint cast (assert : bool) (s : schema) (ctx : context) (v : value)
    (r : rng) {struct s} : completion (value * rng) :=
  match s with
  | SString m | SBoolean m => checked assert s v (mixed_cast m v r)
  | SObject m fields =>
      let '(v1, r1) := mixed_cast m v r in
      match v1 with
      | VUndef => Normal (get_default s r1)
      | VObj props =>
          match
            (fix cast_fields (fs : list (string * field))
                 (acc : list (string * value)) (changed : bool) (r : rng)
                 {struct fs}
               : completion (list (string * value) * bool * rng) :=
               match fs with
               | [] => Normal (acc, changed, r)
               | (k, f) :: fs' =>
                   let old := get v1 k in
                   let fs_k :=
                     match f with
                     | FSchema s' => s'
                     | FWhen _ resolved => resolved ctx
                     | FLazy g => g old ctx
                     end in
                   if stripped fs_k
                   then cast_fields fs' acc (changed || has v1 k) r
                   else
                     match cast assert fs_k ctx old r with
                     | TypeError => TypeError
                     | Normal (new, r') =>
                         cast_fields fs'
                           (if is_undefined new then acc else acc ++ [(k, new)])
                           (changed || negb (strict_eq new old)) r'
                     end
               end) fields [] false r1
          with
          | TypeError => TypeError
          | Normal (acc, changed, r2) =>
              Normal (if changed then VObj (acc ++ unknown_props fields props)
                      else v1, r2)
          end
      | _ => checked assert s v (v1, r1)
      end
  end.

(** The loop of the object cast over the fields, by itself. *)
Definition cast_fields (assert : bool) (ctx : context) (v1 : value)
  : list (string * field) -> list (string * value) -> bool -> rng ->
    completion (list (string * value) * bool * rng) :=
  fix cast_fields (fs : list (string * field))
      (acc : list (string * value)) (changed : bool) (r : rng) {struct fs}
    : completion (list (string * value) * bool * rng) :=
    match fs with
    | [] => Normal (acc, changed, r)
    | (k, f) :: fs' =>
        let old := get v1 k in
        let fs_k :=
          match f with
          | FSchema s' => s'
          | FWhen _ resolved => resolved ctx
          | FLazy g => g old ctx
          end in
        if stripped fs_k
        then cast_fields fs' acc (changed || has v1 k) r
        else
          match cast assert fs_k ctx old r with
          | TypeError => TypeError
          | Normal (new, r') =>
              cast_fields fs'
                (if is_undefined new then acc else acc ++ [(k, new)])
                (changed || negb (strict_eq new old)) r'
          end
    end.

(** A validation error: the path of the offending value and the message of
    the test that failed. *)
Record validation_error : Type := ValidationError {
  path : string;
  message : string
}.

Definition not_type : string := "notType".

Definition join_path (p k : string) : string :=
  if String.eqb p "" then k else (p ++ "." ++ k)%string.

(** The tests of [schema._validate] on a value that has been cast: the type
    test first, the schema's own tests when it passes, then, for an object
    whose own tests pass, the fields on the properties as they are (inner
    fields are validated in strict mode).  The errors of the fields are
    collected in the order the fields are visited and reported in the order
    of the shape ([sortByKeyOrder]). *)
Fixpoint errors_of (s : schema) (ctx : context) (p : string) (v : value)
    {struct s} : list validation_error :=
  let own (m : mods) :=
    if negb (is_undefined v) && negb (is_type s v)
    then [{| path := p; message := not_type |}]
    else map (fun t => {| path := p; message := test_message t |})
             (filter (fun t => negb (test_fn t v)) (tests m)) in
  match s with
  | SString m | SBoolean m => own m
  | SObject m fields =>
      match own m, v with
      | [], VObj _ =>
          List.concat
            (rev
               ((fix errors_of_fields (fs : list (string * field)) {struct fs}
                   : list (list validation_error) :=
                   match fs with
                   | [] => []
                   | (k, f) :: fs' =>
                       let fs_k :=
                         match f with
                         | FSchema s' => s'
                         | FWhen _ resolved => resolved ctx
                         | FLazy g => g (get v k) ctx
                         end in
                       errors_of fs_k ctx (join_path p k) (get v k)
                       :: errors_of_fields fs'
                   end) fields))
      | errs, _ => errs
      end
  end.

(** What the promise of [validate] settles to: fulfilled with the cast
    value, or rejected with the errors found (all of them are kept here;
    under [abortEarly] the promise is rejected with one of them). *)
Inductive validation (A : Type) : Type :=
| Fulfilled (a : A)
| Rejected (errors : list validation_error).
#[local] Arguments Fulfilled {A} a.
#[local] Arguments Rejected {A} errors.

(** [schema.validate(v, { context })]: the value is cast without the type
    assertion, then tested. *)
Definition validate (s : schema) (ctx : context) (v : value) (r : rng)
    : validation (value * rng) :=
  match cast false s ctx v r with
  | TypeError => Rejected [{| path := ""; message := not_type |}]
  | Normal (v', r') =>
      match errors_of s ctx "" v' with
      | [] => Fulfilled (v', r')
      | errs => Rejected errs
      end
  end.

(** What a validation settles to, the state of the generator left out. *)
Definition settle {A B : Type} (res : validation (A * B)) : validation A :=
  match res with
  | Fulfilled (a, _) => Fulfilled a
  | Rejected errs => Rejected errs
  end.

(** The errors a validation reports at the path [p]. *)
Definition errors_at {A : Type} (p : string) (res : validation A)
    : list validation_error :=
  match res with
  | Fulfilled _ => []
  | Rejected errs => filter (fun e => String.eqb (path e) p) errs
  end.

End Model.

Arguments Fulfilled {A} a.
Arguments Rejected {A} errors.
Arguments default_spec : clear implicits.
Arguments mods : clear implicits.
Arguments schema : clear implicits.
Arguments field : clear implicits.

End Yup.
Import Yup.

Notation "s |> f" := (f s) (at level 45, left associativity, only parsing).

(** ** The schema of the join-server form ([validation-schema.js]) *)

Section ValidationSchema.

Variable rng : Type.
Variable JSON_parse : string -> value.

(** [randomByteString(n)] of [lib/random-bytes]: the string it returns and
    the state it leaves the generator in. *)
Variable randomByteString : nat -> rng -> string * rng.

(** [address] of [lib/regexp], by the strings the expression accepts. *)
Variable addressRegexp : string -> bool.

(** [new URL(jsConfig.base_url).hostname], read once when the schema is
    built. *)
Variable js_hostname : string.

(** [parseLorawanMacVersion] of the view's [utils]. *)
Variable parseLorawanMacVersion : value -> number.

(** The message descriptors the tests report. *)
Definition validateAddressFormat : string := "validateAddressFormat".
Definition validate6 : string := "validate6".
Definition validate32 : string := "validate32".

(** Modelled from the spec: [Yup.nullableString] is an extension of Yup made
    by this repository outside the files at hand; the spec has [net_id] an
    optional string, so it is the string schema that also admits [null]. *)
Definition nullableString : schema rng := string_ |> nullable.

(** Modelled from the spec: [emptyOrLength] is an extension of Yup made by
    this repository outside the files at hand.  It is handed a number of
    characters and the message of the length error; the spec has a value
    that is not empty pass when it is exactly that many hexadecimal
    characters, and fail the length validation otherwise; an empty value
    passes. *)
Definition emptyOrLength (n : nat) (message : string) : schema rng -> schema rng :=
  add_test {| test_name := "empty-or-length"; test_message := message;
              test_fn := fun v => match v with
                                  | VStr s => String.eqb s ""
                                              || Nat.eqb (String.length s) n
                                                 && is_hex s
                                  | _ => negb (truthy v)
                                  end |}.

Definition random16BytesString (r : rng) : value * rng :=
  let (s, r') := randomByteString 32 r in (VStr s, r').

Definition validationSchema : schema rng :=
  object_ JSON_parse |> shape [
    ("join_server_address",
      string_ |> when_fn (fun ctx => is_false (externalJs ctx))
        (fun schema =>
           schema
           |> matches addressRegexp validateAddressFormat
           |> default (DefaultValue (VStr js_hostname)))
        (fun schema => schema |> strip));
    ("net_id",
      string_ |> when_schema (fun ctx => is_true (externalJs ctx))
        (string_ |> strip)
        (nullableString
         |> emptyOrLength (3 * 2) validate6
         |> default (DefaultValue (VStr ""))));
    ("root_keys",
      FWhen (object_ JSON_parse) (fun ctx =>
        let externalJs := externalJs ctx in
        let version := lorawanVersion ctx in
        let schema := object_ JSON_parse in
        let strippedSchema := FSchema (object_ JSON_parse |> strip) in
        let keySchema := FLazy (fun _ _ =>
          if negb (truthy externalJs)
          then object_ JSON_parse |> shape [
                 ("key", FSchema (string_
                                  |> length (16 * 2) validate32
                                  |> default (DefaultFn random16BytesString)))]
          else object_ JSON_parse |> strip) in
        if truthy externalJs
        then schema |> shape [("nwk_key", strippedSchema);
                              ("app_key", strippedSchema)]
        else if lt (parseLorawanMacVersion version) 110
        then schema |> shape [("nwk_key", strippedSchema);
                              ("app_key", keySchema)]
        else schema |> shape [("nwk_key", keySchema);
                              ("app_key", keySchema)]));
    ("resets_join_nonces",
      boolean_ |> when_fn
        (fun ctx => ge (parseLorawanMacVersion (lorawanVersion ctx)) 110)
        (fun schema => schema |> default (DefaultValue (VBool false)))
        (fun schema => schema |> strip));
    ("_external_js",
      boolean_ |> when_schema (fun ctx => is_true (externalJs ctx))
        (boolean_
         |> default (DefaultValue (VBool true))
         |> transform (fun _ => VBool true))
        (boolean_
         |> default (DefaultValue (VBool false))
         |> transform (fun _ => VBool false)))
  ].

End ValidationSchema.

(** ** The form ([join-server-form/index.js]) *)

(** [Object.keys(v).length]; [Object.keys] throws on [null] and
    [undefined]. *)
Definition Object_keys_length (v : value) : completion nat :=
  match v with
  | VObj props => Normal (List.length (keys props))
  | VStr s => Normal (String.length s)
  | VBool _ => Normal 0
  | VNull | VUndef => TypeError
  end.

(** The predicates destructure their argument, which throws on [null] and
    [undefined]; [&&] evaluates its right operand only when the left one
    holds. *)
Definition isKeyHidden (key : string) (device : value) : completion bool :=
  match device with
  | VUndef | VNull => TypeError
  | _ =>
      let root_keys := get device "root_keys" in
      if negb (truthy root_keys) then Normal false
      else if negb (typeof_object (get root_keys key)) then Normal false
      else match Object_keys_length (get root_keys key) with
           | Normal n => Normal (Nat.eqb n 0)
           | TypeError => TypeError
           end
  end.

Definition isNwkKeyHidden : value -> completion bool := isKeyHidden "nwk_key".
Definition isAppKeyHidden : value -> completion bool := isKeyHidden "app_key".

Module Form.

(** How the promise returned by [onSubmit] settles. *)
Inductive settled : Type :=
| Resolves
| Rejects (err : value).

(** The state of the mounted component: the two [useState] flags, the
    memoized initial values, the state Formik keeps for the form (values,
    baseline, submitting flag), the error shown with the form, the arguments
    [onSubmit] has been called with, and the state of the random-bytes
    generator. *)
Record state {rng : Type} : Type := State {
  resetsJoinNonces : value;
  externalJs : bool;
  initialValues : value;
  values : value;
  baseline : value;
  submitting : bool;
  error : value;
  submitted : list value;
  gen : rng
}.
Arguments state : clear implicits.

(** A handler returns, or throws leaving the state it had reached. *)
Inductive outcome (rng : Type) : Type :=
| Returned (st : state rng)
| Threw (st : state rng).
Arguments Returned {rng} st.
Arguments Threw {rng} st.

Definition state_of {rng : Type} (o : outcome rng) : state rng :=
  match o with Returned st | Threw st => st end.

Section JoinServerForm.

Context {rng : Type}.
Variable JSON_parse : string -> value.
Variable randomByteString : nat -> rng -> string * rng.
Variable addressRegexp : string -> bool.
Variable js_hostname : string.
Variable parseLorawanMacVersion : value -> number.

(** [hasExternalJs] of the view's [utils]. *)
Variable hasExternalJs : value -> bool.

(** [diff(a, b, exclude)] of [lib/diff]. *)
Variable diff : value -> value -> list string -> value.

(** [props.device]. *)
Variable device : value.

Definition schema_ : schema rng :=
  validationSchema rng JSON_parse randomByteString addressRegexp js_hostname
    parseLorawanMacVersion.

Definition context_of (externalJs : bool) : context :=
  {| Yup.externalJs := VBool externalJs;
     lorawanVersion := get device "lorawan_version" |}.

Definition isNewLorawanVersion : bool :=
  ge (parseLorawanMacVersion (get device "lorawan_version")) 110.

(** The first render: the initial flags, and the initial values cast from
    the device.  Both are memoized on [device]. *)
Definition mount (r : rng) : completion (state rng) :=
  match cast true schema_ (context_of (hasExternalJs device)) device r with
  | TypeError => TypeError
  | Normal (vs, r') =>
      Normal {| resetsJoinNonces :=
                  match get device "resets_join_nonces" with
                  | VUndef => VBool false
                  | v => v
                  end;
                externalJs := hasExternalJs device;
                initialValues := vs;
                values := vs;
                baseline := vs;
                submitting := false;
                error := VStr "";
                submitted := [];
                gen := r' |}
  end.

Definition handleResetsJoinNoncesChange (st : state rng) : state rng :=
  {| resetsJoinNonces :=
       if externalJs st then VBool false else resetsJoinNonces st;
     externalJs := externalJs st;
     initialValues := initialValues st;
     values := values st;
     baseline := baseline st;
     submitting := submitting st;
     error := error st;
     submitted := submitted st;
     gen := gen st |}.

(** [evt.target.checked] is the argument. *)
Definition handleExternalJsChange (externalJsChecked : bool) (st : state rng)
    : outcome rng :=
  let flipped (vs : value) (r : rng) :=
    {| resetsJoinNonces := resetsJoinNonces st;
       externalJs := negb (externalJs st);
       initialValues := initialValues st;
       values := vs;
       baseline := baseline st;
       submitting := submitting st;
       error := error st;
       submitted := submitted st;
       gen := r |} in
  match cast true schema_ (context_of externalJsChecked) (initialValues st)
             (gen st) with
  | TypeError => Threw (flipped (values st) (gen st))
  | Normal (vs, r') => Returned (flipped vs r')
  end.

(** Formik calls [onFormSubmit] with the values of the form, the submitting
    flag set; [result] is how the promise of [onSubmit] settles. *)
Definition onFormSubmit (result : settled) (st : state rng) : outcome rng :=
  let submitting_ :=
    {| resetsJoinNonces := resetsJoinNonces st;
       externalJs := externalJs st;
       initialValues := initialValues st;
       values := values st;
       baseline := baseline st;
       submitting := true;
       error := error st;
       submitted := submitted st;
       gen := gen st |} in
  match cast true schema_ (context_of (externalJs st)) (values st) (gen st) with
  | TypeError => Threw submitting_
  | Normal (castedValues, r') =>
      let updatedValues :=
        diff (initialValues st) castedValues
             ["_external_js"; "_lorawan_version"] in
      match result with
      | Resolves =>
          (* resetForm(castedValues) *)
          Returned {| resetsJoinNonces := resetsJoinNonces st;
                      externalJs := externalJs st;
                      initialValues := initialValues st;
                      values := castedValues;
                      baseline := castedValues;
                      submitting := false;
                      error := VStr "";
                      submitted := submitted st ++ [updatedValues];
                      gen := r' |}
      | Rejects err =>
          (* setSubmitting(false); setError(err) *)
          Returned {| resetsJoinNonces := resetsJoinNonces st;
                      externalJs := externalJs st;
                      initialValues := initialValues st;
                      values := values st;
                      baseline := baseline st;
                      submitting := false;
                      error := err;
                      submitted := submitted st ++ [updatedValues];
                      gen := r' |}
      end
  end.

(** The [validate] callback: the schema's [validate] is handed one argument,
    an object with the single property [context]. *)
Definition validate_ (st : state rng) : validation (value * rng) :=
  validate schema_ no_context
    (VObj [("context",
            VObj [("externalJs", VBool (externalJs st));
                  ("lorawanVersion", get device "lorawan_version")])])
    (gen st).

(** What the user does with the form. *)
Inductive event : Type :=
| Edit (vs : value)
| ResetsJoinNoncesChange
| ExternalJsChange (checked : bool)
| Submit (result : settled).

Definition edit (vs : value) (st : state rng) : state rng :=
  {| resetsJoinNonces := resetsJoinNonces st;
     externalJs := externalJs st;
     initialValues := initialValues st;
     values := vs;
     baseline := baseline st;
     submitting := submitting st;
     error := error st;
     submitted := submitted st;
     gen := gen st |}.

Definition step (st : state rng) (e : event) : state rng :=
  match e with
  | Edit vs => edit vs st
  | ResetsJoinNoncesChange => handleResetsJoinNoncesChange st
  | ExternalJsChange checked => state_of (handleExternalJsChange checked st)
  | Submit result => state_of (onFormSubmit result st)
  end.

Definition run (st : state rng) (es : list event) : state rng :=
  fold_left step es st.

End JoinServerForm.

End Form.

(** ** Sample collaborators

    Instances of what the schema and the form take from the rest of the
    console, to run them on concrete devices. *)

Module Sample.

Definition rng : Type := nat.

Definition hex_digit (n : nat) : ascii :=
  match Nat.modulo n 16 with
  | 0 => "0" | 1 => "1" | 2 => "2" | 3 => "3" | 4 => "4" | 5 => "5"
  | 6 => "6" | 7 => "7" | 8 => "8" | 9 => "9" | 10 => "a" | 11 => "b"
  | 12 => "c" | 13 => "d" | 14 => "e" | _ => "f"
  end%char.

(** A generator of hexadecimal strings of the length asked for; its state
    counts the strings handed out. *)
Definition randomByteString (n : nat) (r : rng) : string * rng :=
  (string_of_list_ascii (map (fun i => hex_digit (7 * r + 3 * i + 1)) (seq 0 n)),
   S r).

(** Host names and addresses: letters, digits, dots, dashes and colons, at
    least one of them. *)
Definition addressRegexp (s : string) : bool :=
  negb (String.eqb s "")
  && forallb (fun c => let n := nat_of_ascii c in
                       ((48 <=? n) && (n <=? 58) || (97 <=? n) && (n <=? 122)
                        || (65 <=? n) && (n <=? 90) || (45 <=? n) && (n <=? 46))%nat)
             (list_ascii_of_string s).

Definition js_hostname : string := "js.example.com".

Definition digit_of (c : ascii) : option Z :=
  let n := nat_of_ascii c in
  if ((48 <=? n) && (n <=? 57))%nat then Some (Z.of_nat (n - 48)) else None.

Fixpoint digits (s : string) : list Z :=
  match s with
  | EmptyString => []
  | String c s' =>
      match digit_of c with
      | Some d => d :: digits s'
      | None => digits s'
      end
  end.

(** Modelled from the spec: [parseLorawanMacVersion] lies outside the files
    at hand.  The first three numeric components of the dotted version,
    weighted into one number (["1.1.0"] is 110, ["1.0.3"] is 103); what is
    no version string counts as 0, which is below 110. *)
Definition parseLorawanMacVersion (v : value) : number :=
  match v with
  | VStr s =>
      match digits s with
      | a :: b :: c :: _ => Num (100 * a + 10 * b + c)
      | [a; b] => Num (100 * a + 10 * b)
      | [a] => Num (100 * a)
      | [] => Num 0
      end
  | _ => Num 0
  end.

(** Modelled from the spec: [hasExternalJs] lies outside the files at hand.
    Whether the device's root keys indicate that it is hosted externally:
    the join server of the console keeps a [root_keys] object for its
    devices. *)
Definition hasExternalJs (device : value) : bool :=
  negb (truthy (get device "root_keys")).

(** Modelled from the spec: [diff] lies outside the files at hand.  The
    field-level difference of two objects: the properties of the second
    that the first does not hold with the same value, without the excluded
    keys. *)
Definition diff (a b : value) (exclude : list string) : value :=
  match b with
  | VObj props =>
      VObj (filter (fun kv => negb (mem (fst kv) exclude)
                              && negb (strict_eq (get a (fst kv)) (snd kv)))
                   props)
  | _ => VObj []
  end.

(** A parser that knows the empty object only. *)
Definition JSON_parse (s : string) : value :=
  if String.eqb s "{}" then VObj [] else VNull.

Definition validationSchema : schema rng :=
  validationSchema rng JSON_parse randomByteString addressRegexp js_hostname
    parseLorawanMacVersion.

Definition context_ (externalJs : bool) (version : string) : context :=
  {| Yup.externalJs := VBool externalJs; lorawanVersion := VStr version |}.

End Sample.

(** ** Sample devices *)

(** A device on an external join server: no root keys are held for it. *)
Definition device_external : value :=
  VObj [("lorawan_version", VStr "1.1.0");
        ("join_server_address", VStr "js.elsewhere.example")].

(** A device on the join server of the console, its keys not yet set. *)
Definition device_local : value :=
  VObj [("lorawan_version", VStr "1.1.0");
        ("join_server_address", VStr "js.example.com");
        ("net_id", VStr "000013");
        ("root_keys", VObj [])].

Definition sample_mount (device : value) : completion (Form.state Sample.rng) :=
  Form.mount Sample.JSON_parse Sample.randomByteString Sample.addressRegexp
    Sample.js_hostname Sample.parseLorawanMacVersion Sample.hasExternalJs
    device 0.

Definition sample_run (device : value) (es : list Form.event)
    : option (Form.state Sample.rng) :=
  match sample_mount device with
  | Normal st0 =>
      Some (Form.run Sample.JSON_parse Sample.randomByteString
              Sample.addressRegexp Sample.js_hostname
              Sample.parseLorawanMacVersion Sample.diff device st0 es)
  | TypeError => None
  end.

(** The key the form holds at [root_keys.nwk_key.key]. *)
Definition nwk_key_of (vs : value) : value :=
  get (get (get vs "root_keys") "nwk_key") "key".

Definition app_key_of (vs : value) : value :=
  get (get (get vs "root_keys") "app_key") "key".

(** What the cast makes of a device without [root_keys] under
    [externalJs = false] and version 1.1.0, and what the cast makes of
    that. *)
Definition absent_root_keys_cast : value :=
  VObj [("_external_js", VBool false);
        ("resets_join_nonces", VBool false);
        ("root_keys", VObj [("app_key", VUndef); ("nwk_key", VUndef)]);
        ("net_id", VStr "");
        ("join_server_address", VStr "js.example.com")].

Definition absent_root_keys_cast_again : value :=
  VObj [("_external_js", VBool false);
        ("resets_join_nonces", VBool false);
        ("root_keys",
         VObj [("app_key", VObj [("key", VStr "147ad0369cf258be147ad0369cf258be")]);
               ("nwk_key", VObj [("key", VStr "8be147ad0369cf258be147ad0369cf25")])]);
        ("net_id", VStr "");
        ("join_server_address", VStr "js.example.com")].

(** ** Facts about values *)

Section ValueFacts.

Variable P : value -> Prop.
Hypothesis P_undef : P VUndef.
Hypothesis P_null : P VNull.
Hypothesis P_bool : forall b, P (VBool b).
Hypothesis P_str : forall s, P (VStr s).
Hypothesis P_obj : forall props, Forall (fun kv => P (snd kv)) props -> P (VObj props).

(** Induction on a value with the properties of an object at hand. *)
Fixpoint value_rect' (v : value) : P v :=
  match v with
  | VUndef => P_undef
  | VNull => P_null
  | VBool b => P_bool b
  | VStr s => P_str s
  | VObj props =>
      P_obj props
        ((fix all (ps : list (string * value)) : Forall (fun kv => P (snd kv)) ps :=
            match ps with
            | [] => Forall_nil _
            | kv :: ps' => Forall_cons kv (value_rect' (snd kv)) (all ps')
            end) props)
  end.

End ValueFacts.

Lemma strict_eq_refl (v : value) : strict_eq v v = true.
Proof.
  induction v as [| | b | s | props IH] using value_rect'; simpl; trivial.
  - apply Bool.eqb_reflx.
  - apply String.eqb_refl.
  - induction IH as [| [k x] ps Hx _ IHps]; trivial.
    simpl in Hx. rewrite String.eqb_refl, Hx, IHps. reflexivity.
Qed.

Lemma strict_eq_eq (a b : value) : strict_eq a b = true -> a = b.
Proof.
  revert b.
  induction a as [| | x | s | props IH] using value_rect';
    intros [| | y | t | qs]; simpl; try discriminate; trivial.
  - intros H. apply Bool.eqb_prop in H. now subst.
  - intros H. apply String.eqb_eq in H. now subst.
  - revert qs.
    induction IH as [| [k x] ps Hx _ IHps]; intros [| [k' y] qs];
      try discriminate; trivial.
    intros H. apply andb_prop in H as [H Hrest].
    apply andb_prop in H as [Hk Hxy].
    apply String.eqb_eq in Hk. apply Hx in Hxy. simpl in Hxy.
    specialize (IHps qs Hrest). congruence.
Qed.

Lemma lookup_app (k : string) (p q : list (string * value)) :
  lookup k (p ++ q) =
  match lookup k p with Some x => Some x | None => lookup k q end.
Proof.
  induction p as [| [k' x] p IH]; simpl; trivial.
  destruct (String.eqb k k'); trivial.
Qed.

Lemma lookup_none_iff (k : string) (p : list (string * value)) :
  lookup k p = None <-> ~ In k (keys p).
Proof.
  induction p as [| [k' x] p IH]; simpl.
  - tauto.
  - destruct (String.eqb_spec k k') as [-> | Hne].
    + split; [discriminate | intros H; exfalso; apply H; now left].
    + rewrite IH. split; [intros H [E | Hin]; [congruence | tauto] | tauto].
Qed.

Lemma mem_true_iff (k : string) (ks : list string) : mem k ks = true <-> In k ks.
Proof.
  unfold mem. rewrite existsb_exists. split.
  - intros (x & Hin & E). apply String.eqb_eq in E. now subst.
  - intros Hin. exists k. split; [assumption | apply String.eqb_refl].
Qed.

(** ** Facts about the cast of an object *)

Section CastFacts.

Context {rng : Type}.
Variable assert : bool.
Variable ctx : context.

Lemma cast_object_eq (m : mods rng) (fields : list (string * field rng))
    (v : value) (r : rng) :
  cast assert (SObject m fields) ctx v r =
  let '(v1, r1) := mixed_cast m v r in
  match v1 with
  | VUndef => Normal (get_default (SObject m fields) r1)
  | VObj props =>
      match cast_fields assert ctx v1 fields [] false r1 with
      | TypeError => TypeError
      | Normal (acc, changed, r2) =>
          Normal (if changed then VObj (acc ++ unknown_props fields props)
                  else v1, r2)
      end
  | _ => checked assert (SObject m fields) v (v1, r1)
  end.
Proof. reflexivity. Qed.

Lemma cast_fields_cons (v : value) (k : string) (f : field rng)
    (fs : list (string * field rng)) (acc : list (string * value))
    (changed : bool) (r : rng) :
  cast_fields assert ctx v ((k, f) :: fs) acc changed r =
  let s := resolve f ctx (get v k) in
  if stripped s then cast_fields assert ctx v fs acc (changed || has v k) r
  else match cast assert s ctx (get v k) r with
       | TypeError => TypeError
       | Normal (new, r') =>
           cast_fields assert ctx v fs
             (if is_undefined new then acc else acc ++ [(k, new)])
             (changed || negb (strict_eq new (get v k))) r'
       end.
Proof. destruct f; reflexivity. Qed.

Lemma unknown_props_lookup (fields : list (string * field rng))
    (props : list (string * value)) (k : string) :
  In k (map fst fields) -> lookup k (unknown_props fields props) = None.
Proof.
  intros Hin. apply lookup_none_iff. unfold keys, unknown_props.
  rewrite in_map_iff. intros ([k' x] & E & Hf). simpl in E. subst k'.
  apply filter_In in Hf as [_ Hf]. simpl in Hf.
  apply mem_true_iff in Hin. rewrite Hin in Hf. discriminate.
Qed.

(** What the first pass over the fields did for the field [k]: [res] is
    what it left under [k], [changed] the flag at the end of the pass. *)
Definition field_done (v : value) (k : string) (f : field rng)
    (res : option value) (changed : bool) : Prop :=
  let s := resolve f ctx (get v k) in
  if stripped s
  then res = None /\ (changed = false -> has v k = false)
  else exists r1 new r2,
      cast assert s ctx (get v k) r1 = Normal (new, r2)
      /\ res = (if is_undefined new then None else Some new)
      /\ (changed = false -> new = get v k).

Lemma field_done_weaken v k f res changed changed' :
  (changed' = false -> changed = false) ->
  field_done v k f res changed -> field_done v k f res changed'.
Proof.
  unfold field_done. intros Hc. destruct (stripped _).
  - intros [H1 H2]. auto.
  - intros (r1 & new & r2 & H1 & H2 & H3). exists r1, new, r2. auto.
Qed.

Lemma cast_fields_first (v : value) (fs : list (string * field rng)) :
  NoDup (map fst fs) ->
  forall acc changed r acc' changed' r',
  cast_fields assert ctx v fs acc changed r = Normal (acc', changed', r') ->
  (changed' = false -> changed = false)
  /\ exists added,
      acc' = acc ++ added
      /\ (forall k, ~ In k (map fst fs) -> lookup k added = None)
      /\ (forall k f, In (k, f) fs -> field_done v k f (lookup k added) changed').
Proof.
  induction fs as [| [k f] fs IH]; intros Hnd acc changed r acc' changed' r' H.
  - simpl in H. injection H as <- <- <-. split; [trivial |].
    exists []. rewrite app_nil_r. repeat split; trivial. intros k f [].
  - simpl in Hnd. apply NoDup_cons_iff in Hnd as [Hk Hnd].
    rewrite cast_fields_cons in H. cbv zeta in H.
    assert (Hother : forall k' f', In (k', f') fs -> String.eqb k' k = false).
    { intros k' f' Hin. apply String.eqb_neq. intros ->.
      apply Hk. apply in_map_iff. now exists (k, f'). }
    destruct (stripped (resolve f ctx (get v k))) eqn:Hs.
    + apply IH in H as (Hc & added & -> & Hout & Hin); trivial.
      split. { intros E. apply Hc in E. now apply orb_false_elim in E. }
      exists added. split; [reflexivity |]. split.
      * intros k' Hk'. apply Hout. simpl in Hk'. tauto.
      * intros k' f' [E | Hin']; [| now apply Hin].
        injection E as <- <-. unfold field_done. rewrite Hs. split.
        -- now apply Hout.
        -- intros E. apply Hc in E. now apply orb_false_elim in E.
    + destruct (cast assert _ ctx (get v k) r) as [[new r1] |] eqn:Hcast;
        [| discriminate].
      apply IH in H as (Hc & added & -> & Hout & Hin); trivial.
      split. { intros E. apply Hc in E. now apply orb_false_elim in E. }
      exists ((if is_undefined new then [] else [(k, new)]) ++ added). split.
      { destruct (is_undefined new); simpl; [reflexivity |].
        now rewrite <- app_assoc. }
      split.
      * intros k' Hk'. simpl in Hk'. rewrite lookup_app.
        rewrite Hout by tauto.
        destruct (is_undefined new); simpl; trivial.
        destruct (String.eqb_spec k' k); [subst; tauto | reflexivity].
      * intros k' f' [E | Hin'].
        -- injection E as <- <-. unfold field_done. rewrite Hs.
           exists r, new, r1. split; [assumption |]. split.
           ++ rewrite lookup_app, (Hout k Hk).
              destruct (is_undefined new); simpl; trivial.
              now rewrite String.eqb_refl.
           ++ intros E. apply Hc in E. apply orb_false_elim in E as [_ E].
              apply negb_false_iff in E. now apply strict_eq_eq.
        -- rewrite lookup_app.
           replace (lookup k' (if is_undefined new then [] else [(k, new)]))
             with (@None value).
           { now apply Hin. }
           destruct (is_undefined new); simpl; trivial.
           now rewrite (Hother k' f' Hin').
Qed.

(** The field [k] of [out] is as a pass over the fields leaves it. *)
Definition field_fixed (out : value) (k : string) (f : field rng) : Prop :=
  let s := resolve f ctx (get out k) in
  if stripped s then has out k = false
  else forall r, cast assert s ctx (get out k) r = Normal (get out k, r).

Lemma cast_fields_again (out : value) (fs : list (string * field rng)) :
  (forall k f, In (k, f) fs -> field_fixed out k f) ->
  forall acc r, exists acc',
    cast_fields assert ctx out fs acc false r = Normal (acc', false, r).
Proof.
  induction fs as [| [k f] fs IH]; intros Hfix acc r.
  - exists acc. reflexivity.
  - rewrite cast_fields_cons. cbv zeta.
    pose proof (Hfix k f (or_introl eq_refl)) as Hk. unfold field_fixed in Hk.
    destruct (stripped (resolve f ctx (get out k))).
    + rewrite Hk. simpl. apply IH. intros k' f' Hin. apply Hfix. now right.
    + rewrite Hk, strict_eq_refl. simpl. apply IH.
      intros k' f' Hin. apply Hfix. now right.
Qed.

(** A field is stable at the value [old] when its cast is a value the field
    casts to itself, without a draw from the generator. *)
Definition field_stable (f : field rng) (old : value) : Prop :=
  let s := resolve f ctx old in
  if stripped s then stripped (resolve f ctx VUndef) = true
  else forall r new r',
      cast assert s ctx old r = Normal (new, r') ->
      new <> VUndef
      /\ stripped (resolve f ctx new) = false
      /\ forall r2, cast assert (resolve f ctx new) ctx new r2 = Normal (new, r2).

(** The cast of an object whose fields are stable is cast to itself. *)
Lemma cast_object_again (m : mods rng) (fs : list (string * field rng))
    (v : value) (props : list (string * value)) (r r1 : rng) (out : value)
    (r' : rng) :
  (forall p q, mixed_cast m (VObj p) q = (VObj p, q)) ->
  NoDup (map fst fs) ->
  mixed_cast m v r = (VObj props, r1) ->
  (forall k f, In (k, f) fs -> field_stable f (get (VObj props) k)) ->
  cast assert (SObject m fs) ctx v r = Normal (out, r') ->
  forall r2, cast assert (SObject m fs) ctx out r2 = Normal (out, r2).
Proof.
  intros Hm Hnd Hv Hstable H r2.
  rewrite cast_object_eq, Hv in H.
  destruct (cast_fields assert ctx (VObj props) fs [] false r1)
    as [[[acc changed] r3] |] eqn:Hpass; [| discriminate].
  injection H as <- <-.
  apply cast_fields_first in Hpass as (_ & added & E & Hout & Hin); trivial.
  simpl in E. subst acc.
  assert (Hfixed : forall k f, In (k, f) fs ->
            field_fixed (if changed
                         then VObj (added ++ unknown_props fs props)
                         else VObj props) k f).
  { intros k f Hkf. specialize (Hin k f Hkf). specialize (Hstable k f Hkf).
    unfold field_done in Hin. unfold field_stable in Hstable.
    unfold field_fixed.
    assert (Hkin : In k (map fst fs)).
    { apply in_map_iff. now exists (k, f). }
    destruct changed.
    - assert (Hget : get (VObj (added ++ unknown_props fs props)) k =
                     match lookup k added with Some x => x | None => VUndef end
                     /\ has (VObj (added ++ unknown_props fs props)) k =
                        match lookup k added with Some _ => true | None => false end).
      { simpl. rewrite lookup_app, (unknown_props_lookup fs props k Hkin).
        destruct (lookup k added); split; reflexivity. }
      destruct Hget as [Hget Hhas]. rewrite Hget, Hhas.
      destruct (stripped (resolve f ctx (get (VObj props) k))).
      + destruct Hin as [-> _]. rewrite Hstable. reflexivity.
      + destruct Hin as (q1 & new & q2 & Hcast & -> & _).
        destruct (Hstable _ _ _ Hcast) as (Hnew & Hs & Hagain).
        assert (Hu : is_undefined new = false)
          by (destruct new; trivial; now exfalso).
        rewrite Hu, Hs. exact Hagain.
    - destruct (stripped (resolve f ctx (get (VObj props) k))).
      + now apply Hin.
      + destruct Hin as (q1 & new & q2 & Hcast & _ & Hsame).
        specialize (Hsame eq_refl).
        destruct (Hstable _ _ _ Hcast) as (_ & Hs & Hagain).
        rewrite <- Hsame. exact Hagain. }
  assert (Hobj : exists p, (if changed
                            then VObj (added ++ unknown_props fs props)
                            else VObj props) = VObj p).
  { destruct changed; eexists; reflexivity. }
  destruct Hobj as [p Hp]. rewrite Hp in *.
  rewrite cast_object_eq, Hm.
  destruct (cast_fields_again (VObj p) fs Hfixed [] r2) as [acc' ->].
  reflexivity.
Qed.

End CastFacts.

Section CastFieldFacts.

Context {rng : Type}.
Variable assert : bool.
Variable ctx : context.

(** The field [k] of the cast of an object: absent when the field's schema
    is stripped, the cast of the old value otherwise. *)
Lemma cast_object_field (m : mods rng) (fs : list (string * field rng))
    (v : value) (props : list (string * value)) (r r1 : rng) (out : value)
    (r' : rng) (k : string) (f : field rng) :
  mixed_cast m v r = (VObj props, r1) ->
  NoDup (map fst fs) ->
  cast assert (SObject m fs) ctx v r = Normal (out, r') ->
  In (k, f) fs ->
  (exists p, out = VObj p)
  /\ if stripped (resolve f ctx (get (VObj props) k))
     then has out k = false
     else exists q1 new q2,
         cast assert (resolve f ctx (get (VObj props) k)) ctx
              (get (VObj props) k) q1 = Normal (new, q2)
         /\ get out k = new.
Proof.
  intros Hv Hnd H Hkf.
  rewrite cast_object_eq, Hv in H.
  destruct (cast_fields assert ctx (VObj props) fs [] false r1)
    as [[[acc changed] r3] |] eqn:Hpass; [| discriminate].
  injection H as <- <-.
  apply cast_fields_first in Hpass as (_ & added & E & Hout & Hin); trivial.
  simpl in E. subst acc. specialize (Hin k f Hkf). unfold field_done in Hin.
  cbv zeta in Hin.
  assert (Hkin : In k (map fst fs)) by (apply in_map_iff; now exists (k, f)).
  split. { destruct changed; eexists; reflexivity. }
  destruct (stripped (resolve f ctx (get (VObj props) k))).
  - destruct Hin as [Hnone Hsame]. destruct changed.
    + simpl. now rewrite lookup_app, Hnone, (unknown_props_lookup fs props k Hkin).
    + now apply Hsame.
  - destruct Hin as (q1 & new & q2 & Hcast & Hres & Hsame).
    exists q1, new, q2. split; [assumption |]. destruct changed.
    + simpl. rewrite lookup_app, Hres, (unknown_props_lookup fs props k Hkin).
      now destruct new.
    + symmetry. now apply Hsame.
Qed.

(** The pass over the fields, cut in two. *)
Lemma cast_fields_app (v : value) (fs1 fs2 : list (string * field rng))
    (acc : list (string * value)) (changed : bool) (r : rng) :
  cast_fields assert ctx v (fs1 ++ fs2) acc changed r =
  match cast_fields assert ctx v fs1 acc changed r with
  | Normal (a, c, q) => cast_fields assert ctx v fs2 a c q
  | TypeError => TypeError
  end.
Proof.
  revert acc changed r.
  induction fs1 as [| [k f] fs1 IH]; intros acc changed r; [reflexivity |].
  rewrite <- app_comm_cons, !cast_fields_cons. cbv zeta.
  destruct (stripped _); [apply IH |].
  destruct (cast assert _ ctx (get v k) r) as [[new r1] |];
    [apply IH | reflexivity].
Qed.

(** The field [k] of the cast of an object, with the states of the
    generator: the field is cast at the state the fields before it leave,
    and the fields after it start from the state it leaves. *)
Lemma cast_object_field_at (m : mods rng) (fs1 fs2 : list (string * field rng))
    (v : value) (props : list (string * value)) (r r1 : rng) (out : value)
    (r' : rng) (k : string) (f : field rng) :
  mixed_cast m v r = (VObj props, r1) ->
  NoDup (map fst (fs1 ++ (k, f) :: fs2)) ->
  stripped (resolve f ctx (get (VObj props) k)) = false ->
  cast assert (SObject m (fs1 ++ (k, f) :: fs2)) ctx v r = Normal (out, r') ->
  exists a1 c1 q1 new q2 a2 c2 a3 c3,
    cast_fields assert ctx (VObj props) fs1 [] false r1 = Normal (a1, c1, q1)
    /\ cast assert (resolve f ctx (get (VObj props) k)) ctx
             (get (VObj props) k) q1 = Normal (new, q2)
    /\ get out k = new
    /\ cast_fields assert ctx (VObj props) fs2 a2 c2 q2 = Normal (a3, c3, r').
Proof.
  intros Hv Hnd Hs H.
  rewrite cast_object_eq, Hv in H.
  destruct (cast_fields assert ctx (VObj props) (fs1 ++ (k, f) :: fs2) []
              false r1) as [[[acc changed] r3] |] eqn:Hpass; [| discriminate].
  injection H as <- <-.
  rewrite cast_fields_app in Hpass.
  destruct (cast_fields assert ctx (VObj props) fs1 [] false r1)
    as [[[a1 c1] q1] |] eqn:H1; [| discriminate].
  rewrite cast_fields_cons in Hpass. cbv zeta in Hpass. rewrite Hs in Hpass.
  destruct (cast assert _ ctx (get (VObj props) k) q1) as [[new q2] |] eqn:Hk;
    [| discriminate].
  exists a1, c1, q1, new, q2. do 4 eexists.
  split; [reflexivity |]. split; [exact Hk |]. split; [| exact Hpass].
  rewrite map_app in Hnd. simpl in Hnd.
  pose proof (NoDup_remove _ _ _ Hnd) as [Hnd' Hnotin].
  assert (Hk1 : ~ In k (map fst fs1))
    by (intros Hin; apply Hnotin, in_or_app; now left).
  assert (Hk2 : ~ In k (map fst fs2))
    by (intros Hin; apply Hnotin, in_or_app; now right).
  apply cast_fields_first in H1 as (_ & added1 & E1 & Hout1 & _);
    [| exact (NoDup_app_remove_r _ _ Hnd')].
  apply cast_fields_first in Hpass as (Hc & added2 & E2 & Hout2 & _);
    [| exact (NoDup_app_remove_l _ _ Hnd')].
  simpl in E1. subst a1 acc.
  destruct changed.
  - assert (Hkin : In k (map fst (fs1 ++ (k, f) :: fs2))).
    { rewrite map_app. apply in_or_app. right. now left. }
    simpl. rewrite !lookup_app, (unknown_props_lookup _ props k Hkin).
    rewrite (Hout2 k Hk2).
    destruct new; cbn [is_undefined]; rewrite ?lookup_app, (Hout1 k Hk1);
      simpl; rewrite ?String.eqb_refl; reflexivity.
  - specialize (Hc eq_refl). apply orb_false_elim in Hc as [_ Hc].
    apply negb_false_iff in Hc. symmetry. now apply strict_eq_eq.
Qed.

(** A field that leaves the generator alone at the value [old]: it is
    stripped, or its cast returns in the state it started in. *)
Definition field_quiet (f : field rng) (old : value) : Prop :=
  stripped (resolve f ctx old) = true
  \/ forall q new q',
       cast assert (resolve f ctx old) ctx old q = Normal (new, q') -> q' = q.

Lemma cast_fields_quiet (v : value) (fs : list (string * field rng)) :
  (forall k f, In (k, f) fs -> field_quiet f (get v k)) ->
  forall acc changed r a c q,
    cast_fields assert ctx v fs acc changed r = Normal (a, c, q) -> q = r.
Proof.
  induction fs as [| [k f] fs IH]; intros Hq acc changed r a c q H.
  - simpl in H. now injection H as _ _ <-.
  - rewrite cast_fields_cons in H. cbv zeta in H.
    assert (Hrest : forall k' f', In (k', f') fs -> field_quiet f' (get v k'))
      by (intros k' f' Hin; apply Hq; now right).
    destruct (Hq k f (or_introl eq_refl)) as [Hs | Hc].
    + rewrite Hs in H. exact (IH Hrest _ _ _ _ _ _ H).
    + destruct (stripped _); [exact (IH Hrest _ _ _ _ _ _ H) |].
      destruct (cast assert _ ctx (get v k) r) as [[new r1] |] eqn:Hk;
        [| discriminate H].
      apply Hc in Hk. subst r1. exact (IH Hrest _ _ _ _ _ _ H).
Qed.

(** A string or boolean schema draws from the generator through a default
    function only. *)
Lemma mixed_quiet (s : schema rng) (v : value) (q : rng) (new : value)
    (q' : rng) :
  (forall m fs, s <> SObject m fs) ->
  (forall g, _default (mods_of s) <> Some (DefaultFn g)) ->
  cast assert s ctx v q = Normal (new, q') -> q' = q.
Proof.
  intros Hs Hd H.
  assert (Hm : mixed_cast (mods_of s) v q = (new, q')).
  { destruct s as [m | m | m fs]; [| | now destruct (Hs m fs)];
      cbn [cast mods_of] in H |- *; unfold checked in H;
      destruct (_ && _); try discriminate H; now injection H. }
  unfold mixed_cast in Hm.
  destruct (if is_undefined v then v else _);
    destruct (_default (mods_of s)) as [[d | g] |]; simpl in Hm;
    try (now destruct (Hd g)); congruence.
Qed.

Lemma has_false_get (v : value) (k : string) : has v k = false -> get v k = VUndef.
Proof.
  destruct v; simpl; trivial. now destruct (lookup k props).
Qed.



End CastFieldFacts.

Section ObjectFacts.

Context {rng : Type}.
Variable JSON_parse : string -> value.
Variable ctx : context.

Let m0 : mods rng := no_mods (object_coerce JSON_parse).

Lemma object_coerce_cases (v : value) :
  (exists p, object_coerce JSON_parse v = VObj p)
  \/ object_coerce JSON_parse v = VNull.
Proof.
  unfold object_coerce.
  destruct (match v with VStr s => JSON_parse s | _ => v end);
    try (right; reflexivity). left. eexists. reflexivity.
Qed.

Lemma object_coerce_obj (p : list (string * value)) :
  object_coerce JSON_parse (VObj p) = VObj p.
Proof. reflexivity. Qed.

Lemma mixed_cast_object (v : value) (r : rng) :
  v <> VUndef -> mixed_cast m0 v r = (object_coerce JSON_parse v, r).
Proof.
  intros Hv. unfold mixed_cast, m0. simpl.
  replace (is_undefined v) with false by (destruct v; trivial; now exfalso).
  destruct (object_coerce_cases v) as [[p ->] | ->]; reflexivity.
Qed.

Lemma mixed_cast_object_obj (p : list (string * value)) (q : rng) :
  mixed_cast m0 (VObj p) q = (VObj p, q).
Proof. reflexivity. Qed.

(** The three ways the asserting cast of an object schema returns: the
    default for [undefined], the cast of the fields for what is or parses
    to an object; anything else throws. *)
Lemma cast_object_cases (fs : list (string * field rng)) (v : value)
    (r : rng) (out : value) (r' : rng) :
  cast true (SObject m0 fs) ctx v r = Normal (out, r') ->
  (v = VUndef /\ get_default (SObject m0 fs) r = (out, r'))
  \/ (v <> VUndef /\ exists props, mixed_cast m0 v r = (VObj props, r)
                                 /\ object_coerce JSON_parse v = VObj props).
Proof.
  intros H. destruct v as [| | b | s | p].
  - left. split; [reflexivity |].
    change (Normal (get_default (SObject m0 fs) r) = Normal (out, r')) in H.
    congruence.
  - discriminate H.
  - discriminate H.
  - right. split; [discriminate |].
    rewrite cast_object_eq, mixed_cast_object in H by discriminate.
    rewrite mixed_cast_object by discriminate.
    destruct (object_coerce_cases (VStr s)) as [[p E] | E]; rewrite E in *.
    + now exists p.
    + discriminate H.
  - right. split; [discriminate |]. exists p. split; reflexivity.
Qed.

Lemma cast_object_obj (assert : bool) (m : mods rng)
    (fs : list (string * field rng)) (v : value)
    (props : list (string * value)) (r r1 : rng) (out : value) (r' : rng) :
  mixed_cast m v r = (VObj props, r1) ->
  cast assert (SObject m fs) ctx v r = Normal (out, r') ->
  exists p, out = VObj p.
Proof.
  intros Hv H. rewrite cast_object_eq, Hv in H.
  destruct (cast_fields assert ctx (VObj props) fs [] false r1)
    as [[[acc changed] r3] |]; [| discriminate].
  injection H as <- <-. destruct changed; eexists; reflexivity.
Qed.

End ObjectFacts.

(** ** Induction on schemas, and the cast that does not assert *)

Section SchemaInduction.

Context {rng : Type}.
Variable P : schema rng -> Prop.
Variable Q : field rng -> Prop.
Hypothesis P_string : forall m, P (SString m).
Hypothesis P_boolean : forall m, P (SBoolean m).
Hypothesis P_object :
  forall m fs, Forall (fun kf => Q (snd kf)) fs -> P (SObject m fs).
Hypothesis Q_schema : forall s, P s -> Q (FSchema s).
Hypothesis Q_when :
  forall base resolved, P base -> (forall ctx, P (resolved ctx)) ->
                        Q (FWhen base resolved).
Hypothesis Q_lazy : forall g, (forall v ctx, P (g v ctx)) -> Q (FLazy g).

Fixpoint schema_ind' (s : schema rng) : P s :=
  match s with
  | SString m => P_string m
  | SBoolean m => P_boolean m
  | SObject m fs =>
      P_object m fs
        ((fix all (fs : list (string * field rng))
            : Forall (fun kf => Q (snd kf)) fs :=
            match fs with
            | [] => Forall_nil _
            | (k, f) :: fs' =>
                Forall_cons (k, f)
                  (match f return Q f with
                   | FSchema s' => Q_schema s' (schema_ind' s')
                   | FWhen base resolved =>
                       Q_when base resolved (schema_ind' base)
                         (fun ctx => schema_ind' (resolved ctx))
                   | FLazy g =>
                       Q_lazy g (fun v ctx => schema_ind' (g v ctx))
                   end)
                  (all fs')
            end) fs)
  end.

End SchemaInduction.

Section CastTotal.

Context {rng : Type}.

(** Without the type assertion the cast never throws. *)
Lemma cast_false_total (s : schema rng) :
  forall ctx v r, exists res, cast false s ctx v r = Normal res.
Proof.
  induction s as [m | m | m fs IH | | |] using schema_ind'
    with (Q := fun f => forall ctx v old r,
                 exists res, cast false (resolve f ctx v) ctx old r = Normal res).
  - intros ctx v r. simpl. unfold checked. rewrite andb_false_r. simpl.
    eexists. reflexivity.
  - intros ctx v r. simpl. unfold checked. rewrite andb_false_r. simpl.
    eexists. reflexivity.
  - intros ctx v r. rewrite cast_object_eq.
    destruct (mixed_cast m v r) as [v1 r1].
    assert (Hfields : forall acc changed q,
               exists res, cast_fields false ctx v1 fs acc changed q = Normal res).
    { clear v r r1. induction IH as [| [k f] fs Hf _ IHfs]; intros acc changed q.
      - eexists. reflexivity.
      - rewrite cast_fields_cons. cbv zeta.
        destruct (stripped (resolve f ctx (get v1 k))); [apply IHfs |].
        simpl in Hf. destruct (Hf ctx (get v1 k) (get v1 k) q) as [[new q'] ->].
        apply IHfs. }
    destruct v1; try (unfold checked; rewrite andb_false_r; simpl;
                      eexists; reflexivity).
    + eexists. reflexivity.
    + destruct (Hfields [] false r1) as [[[acc changed] r2] ->].
      eexists. reflexivity.
  - intros ctx v old r. apply IHs.
  - intros ctx v old r. simpl. apply H.
  - intros ctx v old r. simpl. apply H.
Qed.

End CastTotal.

(** ** Facts about the validation errors *)

Section ErrorFacts.

Context {rng : Type}.
Variable ctx : context.

Lemma is_type_object (m : mods rng) (fs : list (string * field rng))
    (props : list (string * value)) :
  is_type (SObject m fs) (VObj props) = true.
Proof. unfold is_type. now destruct (_nullable _) as [[|] |]. Qed.

(** The errors of an object without tests of its own are those of its
    fields, in the order of the shape. *)
Lemma errors_of_object (m : mods rng) (fs : list (string * field rng))
    (p : string) (props : list (string * value)) :
  tests m = [] ->
  errors_of (SObject m fs) ctx p (VObj props) =
  flat_map (fun kf =>
              errors_of (resolve (snd kf) ctx (get (VObj props) (fst kf))) ctx
                        (join_path p (fst kf)) (get (VObj props) (fst kf)))
           (rev fs).
Proof.
  intros Ht. cbn [errors_of]. rewrite is_type_object, Ht. cbn [negb andb map filter].
  rewrite andb_false_r. rewrite flat_map_concat_map, map_rev. do 2 f_equal.
  induction fs as [| [k f] fs IH]; [reflexivity |].
  cbn [map fst snd]. rewrite <- IH. destruct f; reflexivity.
Qed.

(** The errors of a string or a boolean are reported at its own path. *)
Lemma errors_of_mixed_path (s : schema rng) (p : string) (v : value)
    (e : validation_error) :
  (forall m fs, s <> SObject m fs) ->
  In e (errors_of s ctx p v) -> path e = p.
Proof.
  intros Hs Hin.
  assert (H : forall m : mods rng, In e
            (if negb (is_undefined v) && negb (is_type s v)
             then [{| path := p; message := not_type |}]
             else map (fun t => {| path := p; message := test_message t |})
                      (filter (fun t => negb (test_fn t v)) (tests m))) ->
            path e = p).
  { intros m H. destruct (_ && _).
    - destruct H as [<- | []]. reflexivity.
    - apply in_map_iff in H as (t & <- & _). reflexivity. }
  destruct s as [m | m | m fs]; [now apply (H m) | now apply (H m) |].
  exfalso. now apply (Hs m fs).
Qed.

Lemma errors_at_validate (s : schema rng) (p : string) (v : value) (r : rng)
    (out : value) (r' : rng) :
  cast false s ctx v r = Normal (out, r') ->
  errors_at p (validate s ctx v r) =
  filter (fun e => String.eqb (path e) p) (errors_of s ctx "" out).
Proof.
  intros H. unfold validate. rewrite H.
  destruct (errors_of s ctx "" out); reflexivity.
Qed.

Lemma validate_fulfilled (s : schema rng) (v : value) (r : rng)
    (out : value) (r' : rng) :
  validate s ctx v r = Fulfilled (out, r') <->
  cast false s ctx v r = Normal (out, r') /\ errors_of s ctx "" out = [].
Proof.
  unfold validate. destruct (cast false s ctx v r) as [[v' q] |].
  - destruct (errors_of s ctx "" v') eqn:E.
    + split; [intros H; injection H as <- <-; now split |].
      intros [H _]. injection H as <- <-. reflexivity.
    + split; [discriminate |]. intros [H1 H2]. injection H1 as <- <-.
      congruence.
  - split; [discriminate | intros [H _]; discriminate].
Qed.

Lemma filter_path_none (p : string) (errs : list validation_error) :
  (forall e, In e errs -> path e <> p) ->
  filter (fun e => String.eqb (path e) p) errs = [].
Proof.
  induction errs as [| e errs IH]; intros H; [reflexivity |]. simpl.
  destruct (String.eqb_spec (path e) p) as [E | _].
  - exfalso. now apply (H e (or_introl eq_refl)).
  - apply IH. intros e' Hin. apply H. now right.
Qed.

Lemma filter_path_all (p : string) (errs : list validation_error) :
  (forall e, In e errs -> path e = p) ->
  filter (fun e => String.eqb (path e) p) errs = errs.
Proof.
  induction errs as [| e errs IH]; intros H; [reflexivity |]. simpl.
  rewrite (H e (or_introl eq_refl)), String.eqb_refl. f_equal.
  apply IH. intros e' Hin. apply H. now right.
Qed.

End ErrorFacts.

(** ** The schema of the form: what cast and validate do *)

Section SchemaFacts.

Context {rng : Type}.
Variable JSON_parse : string -> value.
Variable randomByteString : nat -> rng -> string * rng.
Variable addressRegexp : string -> bool.
Variable js_hostname : string.
Variable parseLorawanMacVersion : value -> number.

Let sch : schema rng :=
  validationSchema rng JSON_parse randomByteString addressRegexp js_hostname
    parseLorawanMacVersion.
Let m0 : mods rng := no_mods (object_coerce JSON_parse).

Lemma sch_nodup : NoDup (map fst (fields_of sch)).
Proof.
  simpl. repeat constructor; simpl; intuition discriminate.
Qed.

Lemma sch_eq : sch = SObject m0 (fields_of sch).
Proof. reflexivity. Qed.

Ltac strip_is H b :=
  match type of H with
  | (if ?c then _ else _) => change c with b in H; cbv iota in H
  end.

(** *** Casting a second time *)

Definition keyString : schema rng :=
  string_
  |> length (16 * 2) validate32
  |> default (DefaultFn (random16BytesString rng randomByteString)).

Definition keyObject : schema rng :=
  object_ JSON_parse |> shape [("key", FSchema keyString)].

Lemma mixed_field_stable (ctx : context) (s : schema rng) (old : value) :
  stripped s = false ->
  (forall r new r', cast true s ctx old r = Normal (new, r') ->
                    new <> VUndef
                    /\ forall r2, cast true s ctx new r2 = Normal (new, r2)) ->
  field_stable true ctx (FSchema s) old.
Proof.
  intros Hs H. unfold field_stable. simpl. rewrite Hs.
  intros r new r' Hc. destruct (H _ _ _ Hc) as [Hn Ha]. auto.
Qed.

Lemma keyString_stable (ctx : context) (old : value) :
  field_stable true ctx (FSchema keyString) old.
Proof.
  apply mixed_field_stable; [reflexivity |].
  intros r new r' H. destruct old; cbn in H.
  - unfold random16BytesString in H.
    destruct (randomByteString 32 r) as [k q]. injection H as <- <-.
    split; [discriminate | reflexivity].
  - discriminate H.
  - injection H as <- <-. split; [discriminate | reflexivity].
  - injection H as <- <-. split; [discriminate | reflexivity].
  - injection H as <- <-. split; [discriminate | reflexivity].
Qed.

Lemma keyObject_nodup : NoDup (map fst (fields_of keyObject)).
Proof. simpl. repeat constructor; simpl; intuition. Qed.

Lemma keyObject_again (ctx : context) (old : value) (r : rng) (new : value)
    (r' : rng) :
  cast true keyObject ctx old r = Normal (new, r') ->
  new <> VUndef /\ forall r2, cast true keyObject ctx new r2 = Normal (new, r2).
Proof.
  intros H.
  destruct (cast_object_cases JSON_parse _ _ _ _ _ _ H)
    as [[-> Hd] | (Hne & props & Hm & Hc)].
  - simpl in Hd. unfold random16BytesString in Hd.
    destruct (randomByteString 32 r) as [k q]. injection Hd as <- <-.
    split; [discriminate |]. intros r2. simpl.
    rewrite String.eqb_refl. reflexivity.
  - destruct (cast_object_obj ctx true _ _ _ _ _ _ _ _ Hm H) as [p ->].
    split; [discriminate |].
    apply (cast_object_again true ctx m0 (fields_of keyObject) old props r r
             (VObj p) r'); trivial.
    + apply keyObject_nodup.
    + intros k f [E | []]. injection E as <- <-. apply keyString_stable.
Qed.

Definition strippedObject : field rng :=
  FSchema (object_ JSON_parse |> strip).

Definition keyLazy : field rng := FLazy (fun _ _ => keyObject).

(** The schema [root_keys] resolves to, by the two tests of its [when]. *)
Definition rootKeys (external below110 : bool) : schema rng :=
  object_ JSON_parse
  |> shape (if external
            then [("nwk_key", strippedObject); ("app_key", strippedObject)]
            else if below110
                 then [("nwk_key", strippedObject); ("app_key", keyLazy)]
                 else [("nwk_key", keyLazy); ("app_key", keyLazy)]).

Definition rootKeysField : field rng :=
  snd (nth 2 (fields_of sch) ("", FSchema sch)).

Lemma rootKeysField_resolve (e : bool) (version old : value) :
  resolve rootKeysField
    {| Yup.externalJs := VBool e; lorawanVersion := version |} old =
  rootKeys e (lt (parseLorawanMacVersion version) 110).
Proof.
  destruct e; [reflexivity |]. cbn.
  destruct (lt (parseLorawanMacVersion version) 110); reflexivity.
Qed.

Lemma rootKeys_nodup (e b : bool) : NoDup (map fst (fields_of (rootKeys e b))).
Proof.
  destruct e, b; simpl; repeat constructor; simpl; intuition discriminate.
Qed.

Lemma rootKeys_field_stable (ctx : context) (e b : bool) (k : string)
    (f : field rng) (old : value) :
  In (k, f) (fields_of (rootKeys e b)) -> field_stable true ctx f old.
Proof.
  assert (Hs : field_stable true ctx strippedObject old) by reflexivity.
  assert (Hk : field_stable true ctx keyLazy old).
  { unfold field_stable. cbn [resolve keyLazy].
    change (stripped keyObject) with false. cbv iota zeta.
    intros r new r' H. destruct (keyObject_again _ _ _ _ _ H). auto. }
  destruct e, b; simpl; intros [E | [E | []]]; injection E as <- <-;
    assumption.
Qed.

Lemma rootKeys_again (ctx : context) (e b : bool) (old : value) (r : rng)
    (new : value) (r' : rng) :
  old <> VUndef ->
  cast true (rootKeys e b) ctx old r = Normal (new, r') ->
  new <> VUndef
  /\ forall r2, cast true (rootKeys e b) ctx new r2 = Normal (new, r2).
Proof.
  intros Hold H.
  assert (E : rootKeys e b = SObject m0 (fields_of (rootKeys e b)))
    by (destruct e, b; reflexivity).
  rewrite E in H |- *.
  destruct (cast_object_cases JSON_parse _ _ _ _ _ _ H)
    as [[-> _] | (_ & props & Hm & Hc)]; [now exfalso |].
  destruct (cast_object_obj ctx true _ _ _ _ _ _ _ _ Hm H) as [p ->].
  split; [discriminate |].
  apply (cast_object_again true ctx m0 _ old props r r (VObj p) r'); trivial.
  - apply rootKeys_nodup.
  - intros k f Hin. now apply (rootKeys_field_stable ctx e b k).
Qed.

Lemma boolean_coerce_str (s : string) :
  boolean_coerce (VStr s) = VBool true
  \/ boolean_coerce (VStr s) = VBool false
  \/ boolean_coerce (VStr s) = VStr s.
Proof.
  unfold boolean_coerce. cbv zeta.
  destruct (_ || _); [now left |]. destruct (_ || _); auto.
Qed.

Ltac strip_goal :=
  match goal with
  | |- (if ?c then _ else _) =>
      let c' := eval cbv in c in change c with c'; cbv iota
  end.

Ltac split_ifs H :=
  repeat match type of H with
         | context [if ?c then _ else _] => destruct c; cbv beta iota in H
         end.

Ltac mixed_stable old :=
  try unfold field_stable; cbv zeta; strip_goal;
  let H := fresh "H" in
  intros ? ? ? H;
  destruct old; cbv in H; split_ifs H; try discriminate H;
  injection H as <- <-;
  repeat split; try discriminate; try reflexivity.

Lemma top_fields_stable (e : bool) (version : value)
    (props : list (string * value)) (k : string) (f : field rng) :
  (k = "root_keys" -> get (VObj props) "root_keys" <> VUndef) ->
  In (k, f) (fields_of sch) ->
  field_stable true {| Yup.externalJs := VBool e; lorawanVersion := version |}
    f (get (VObj props) k).
Proof.
  intros Hrk Hin. simpl in Hin.
  destruct Hin as [E | [E | [E | [E | [E | []]]]]]; injection E as <- <-.
  - generalize (get (VObj props) "_external_js"). intros old.
    destruct e; mixed_stable old.
  - generalize (get (VObj props) "resets_join_nonces"). intros old.
    unfold field_stable. cbv zeta.
    cbn [resolve when_fn lorawanVersion].
    destruct (ge (parseLorawanMacVersion version) 110).
    + strip_goal. intros r new r' H.
      assert (Hb : new = VBool true \/ new = VBool false).
      { destruct old; try (cbv in H; try discriminate H; injection H as <- <-);
          try destruct b; auto.
        unfold default, boolean_, with_mods, no_mods, cast, mixed_cast in H.
        cbn [is_undefined transforms fold_left _default] in H.
        destruct (boolean_coerce_str s) as [E | [E | E]]; rewrite E in H;
          cbv in H; try discriminate H; injection H as <- <-; auto. }
      destruct Hb as [-> | ->]; repeat split; discriminate.
    + reflexivity.
  - change (field_stable true
              {| Yup.externalJs := VBool e; lorawanVersion := version |}
              rootKeysField (get (VObj props) "root_keys")).
    unfold field_stable. cbv zeta. rewrite !rootKeysField_resolve.
    replace (stripped (rootKeys e (lt (parseLorawanMacVersion version) 110)))
      with false by (destruct e, (lt (parseLorawanMacVersion version) 110);
                     reflexivity).
    intros r new r' H. rewrite rootKeysField_resolve.
    destruct (rootKeys_again _ _ _ _ _ _ _ (Hrk eq_refl) H) as [Hn Ha].
    split; [exact Hn | split; [| exact Ha]].
    now destruct e, (lt (parseLorawanMacVersion version) 110).
  - generalize (get (VObj props) "net_id"). intros old.
    destruct e; [reflexivity | mixed_stable old].
  - generalize (get (VObj props) "join_server_address"). intros old.
    destruct e; [reflexivity | mixed_stable old].
Qed.

(** Casting the cast of a device that has [root_keys] changes nothing and
    draws nothing from the generator. *)
Lemma cast_again (e : bool) (version : value) (props : list (string * value))
    (r : rng) (out : value) (r' : rng) :
  get (VObj props) "root_keys" <> VUndef ->
  cast true sch {| Yup.externalJs := VBool e; lorawanVersion := version |}
       (VObj props) r = Normal (out, r') ->
  forall r2,
    cast true sch {| Yup.externalJs := VBool e; lorawanVersion := version |}
         out r2 = Normal (out, r2).
Proof.
  intros Hrk H.
  apply (cast_object_again true _ m0 (fields_of sch) (VObj props) props r r
           out r'); trivial.
  - apply sch_nodup.
  - intros k f Hin. apply top_fields_stable; auto.
Qed.

Lemma ge_not_lt (n : number) (b : Z) : ge n b = true -> lt n b = false.
Proof.
  destruct n as [| n]; simpl; trivial. intros H.
  apply Z.leb_le in H. apply Z.ltb_ge. exact H.
Qed.

(** The key of a cast key object is a string; it comes from the generator
    when the key object was absent. *)
Lemma keyObject_key (ctx : context) (old : value) (r : rng) (new : value)
    (r' : rng) :
  cast true keyObject ctx old r = Normal (new, r') ->
  exists k, get new "key" = VStr k
            /\ (old = VUndef -> k = fst (randomByteString 32 r)).
Proof.
  intros H.
  destruct (cast_object_cases JSON_parse _ _ _ _ _ _ H)
    as [[-> Hd] | (Hne & props & Hm & Hc)].
  - simpl in Hd. unfold random16BytesString in Hd.
    destruct (randomByteString 32 r) as [k q]. injection Hd as <- <-.
    exists k. split; reflexivity.
  - pose proof (cast_object_field true _ m0 (fields_of keyObject) _ _ _ _ _ _
                  "key" _ Hm keyObject_nodup H (or_introl eq_refl)) as [_ Hk].
    strip_is Hk false. destruct Hk as (q1 & k & q2 & Hcast & ->).
    cbn [resolve] in Hcast.
    destruct (get (VObj props) "key"); cbn in Hcast.
    + unfold random16BytesString in Hcast.
      destruct (randomByteString 32 q1) as [k' q]. injection Hcast as <- <-.
      exists k'. split; [reflexivity | intros; now exfalso].
    + discriminate Hcast.
    + injection Hcast as <- <-. eexists. split; [reflexivity | intros; now exfalso].
    + injection Hcast as <- <-. eexists. split; [reflexivity | intros; now exfalso].
    + injection Hcast as <- <-. eexists. split; [reflexivity | intros; now exfalso].
Qed.

(** *** Where the validation errors of the fields are reported *)

Lemma keyObject_error_paths (ctx : context) (p : string) (v : value)
    (e : validation_error) :
  In e (errors_of keyObject ctx p v) ->
  path e = p \/ path e = join_path p "key".
Proof.
  destruct v as [| | b | s | props];
    try (cbv [errors_of keyObject shape object_ no_mods tests app
              is_undefined negb andb is_type mods_of _nullable type_check
              map filter];
         intros [<- | []]; now left);
    try (intros []).
  unfold keyObject, object_, shape. rewrite errors_of_object by reflexivity.
  cbn [flat_map fst snd resolve app rev sortFields]. rewrite app_nil_r.
  intros H. right.
  apply (errors_of_mixed_path ctx keyString _ _ e) in H; [exact H | discriminate].
Qed.

Lemma strippedObject_error_paths (ctx : context) (p : string) (v : value)
    (e : validation_error) :
  In e (errors_of (object_ (rng:=rng) JSON_parse |> strip) ctx p v) -> path e = p.
Proof.
  destruct v as [| | b | s | props];
    try (cbv [errors_of strip with_mods shape object_ no_mods tests app
              is_undefined negb andb is_type mods_of _nullable type_check
              map filter];
         intros [<- | []]; reflexivity);
    try (intros []).
Qed.

Definition root_keys_paths : list string :=
  ["root_keys"; "root_keys.nwk_key"; "root_keys.nwk_key.key";
   "root_keys.app_key"; "root_keys.app_key.key"].

Lemma rootKeys_error_paths (ctx : context) (e b : bool) (v : value)
    (err : validation_error) :
  In err (errors_of (rootKeys e b) ctx "root_keys" v) ->
  In (path err) root_keys_paths.
Proof.
  assert (Hs : forall k v', In err
              (errors_of (object_ (rng:=rng) JSON_parse |> strip) ctx
                         (join_path "root_keys" k) v') ->
              path err = join_path "root_keys" k)
    by (intros k v'; apply strippedObject_error_paths).
  assert (Hk : forall k v', In err
              (errors_of keyObject ctx (join_path "root_keys" k) v') ->
              path err = join_path "root_keys" k
              \/ path err = join_path (join_path "root_keys" k) "key")
    by (intros k v'; apply keyObject_error_paths).
  destruct v as [| | x | s | props].
  1-4: destruct e, b; cbv; intros H; repeat destruct H as [<- | H];
       try contradiction; auto.
  assert (E : rootKeys e b = SObject m0 (fields_of (rootKeys e b)))
    by (destruct e, b; reflexivity).
  rewrite E, errors_of_object by reflexivity.
  destruct e, b; cbn [fields_of rootKeys object_ shape app flat_map fst snd
                      resolve strippedObject keyLazy rev sortFields];
    rewrite app_nil_r; intros H; apply in_app_or in H as [H | H];
    first [ apply Hs in H | apply Hk in H as [H | H] ];
    rewrite H; cbv; auto 10.
Qed.

Definition top_field (n : nat) : field rng :=
  snd (nth n (fields_of sch) ("", FSchema sch)).

Definition top_schema (n : nat) (e : bool) (version : value) : schema rng :=
  resolve (top_field n)
    {| Yup.externalJs := VBool e; lorawanVersion := version |} VUndef.

Lemma top_schema_mixed (n : nat) (e : bool) (version : value) :
  n <> 2 -> n < 5 -> forall m fs, top_schema n e version <> SObject m fs.
Proof.
  intros H2 H5 m fs.
  destruct n as [| [| [| [| [| n]]]]]; try lia; try contradiction;
    unfold top_schema; cbn [top_field nth snd fields_of sch validationSchema
                            object_ shape app resolve when_fn when_schema
                            Yup.externalJs lorawanVersion rev sortFields];
    try destruct e; try destruct (ge _ _); discriminate.
Qed.

(** The errors of the whole form value, field by field. *)
Lemma top_errors (e : bool) (version : value) (props : list (string * value)) :
  let ctx := {| Yup.externalJs := VBool e; lorawanVersion := version |} in
  let at_ n k := errors_of (top_schema n e version) ctx k (get (VObj props) k) in
  errors_of sch ctx "" (VObj props) =
  at_ 4 "join_server_address" ++ at_ 3 "net_id"
  ++ errors_of (rootKeys e (lt (parseLorawanMacVersion version) 110)) ctx
               "root_keys" (get (VObj props) "root_keys")
  ++ at_ 1 "resets_join_nonces" ++ at_ 0 "_external_js".
Proof.
  intros ctx at_. rewrite sch_eq, errors_of_object by reflexivity.
  cbn [fields_of sch validationSchema object_ shape app flat_map fst snd
       rev sortFields].
  rewrite app_nil_r. unfold at_, top_schema.
  rewrite <- (rootKeysField_resolve e version (get (VObj props) "root_keys")).
  reflexivity.
Qed.

(** Only the field at a path reports errors at that path. *)
Lemma top_errors_at (n : nat) (k : string) (e : bool) (version : value)
    (props : list (string * value)) :
  nth_error ["_external_js"; "resets_join_nonces"; "root_keys";
             "net_id"; "join_server_address"] n = Some k ->
  n <> 2 ->
  let ctx := {| Yup.externalJs := VBool e; lorawanVersion := version |} in
  filter (fun err => String.eqb (path err) k)
         (errors_of sch ctx "" (VObj props)) =
  errors_of (top_schema n e version) ctx k (get (VObj props) k).
Proof.
  intros Hn H2 ctx. pose proof (top_errors e version props) as Ht.
  cbv zeta in Ht. fold ctx in Ht. rewrite Ht. clear Ht. rewrite !filter_app.
  assert (Hrk : filter (fun err => String.eqb (path err) k)
                  (errors_of (rootKeys e (lt (parseLorawanMacVersion version) 110))
                     ctx "root_keys" (get (VObj props) "root_keys")) = []).
  { apply filter_path_none. intros err Hin E.
    apply rootKeys_error_paths in Hin. rewrite E in Hin.
    destruct n as [| [| [| [| [| n]]]]]; try contradiction;
      try (destruct n; discriminate Hn);
      injection Hn as <-; simpl in Hin; intuition discriminate. }
  assert (Hmixed : forall i k', nth_error
             ["_external_js"; "resets_join_nonces"; "root_keys";
              "net_id"; "join_server_address"] i = Some k' -> i <> 2 ->
             filter (fun err => String.eqb (path err) k)
               (errors_of (top_schema i e version) ctx k' (get (VObj props) k'))
             = if Nat.eqb i n
               then errors_of (top_schema i e version) ctx k' (get (VObj props) k')
               else []).
  { intros i k' Hi Hi2.
    assert (Hi5 : i < 5).
    { destruct i as [| [| [| [| [| i]]]]]; try lia.
      destruct i; discriminate Hi. }
    destruct (Nat.eqb_spec i n) as [-> | Hne].
    - assert (k' = k) by congruence. subst k'. apply filter_path_all.
      intros err Hin. eapply errors_of_mixed_path; [| exact Hin].
      now apply top_schema_mixed.
    - apply filter_path_none. intros err Hin E.
      eapply errors_of_mixed_path in Hin; [| now apply top_schema_mixed].
      rewrite Hin in E.
      destruct i as [| [| [| [| [| i]]]]], n as [| [| [| [| [| n]]]]];
        try (destruct i; discriminate Hi); try (destruct n; discriminate Hn);
        try (now apply Hne); simpl in Hi, Hn; congruence. }
  rewrite Hrk.
  rewrite (Hmixed 0 _ eq_refl), (Hmixed 1 _ eq_refl), (Hmixed 3 _ eq_refl),
    (Hmixed 4 _ eq_refl) by discriminate.
  destruct n as [| [| [| [| [| n]]]]]; try contradiction;
    try (destruct n; discriminate Hn); injection Hn as <-; simpl;
    rewrite ?app_nil_r; reflexivity.
Qed.

(** The field [k] of a form value after the cast (asserting or not): absent
    when the field is stripped, the cast of the old value otherwise. *)
Lemma cast_top_field (assert : bool) (n : nat) (k : string) (e : bool)
    (version : value) (props : list (string * value)) (r : rng) (out : value)
    (r' : rng) :
  nth_error ["_external_js"; "resets_join_nonces"; "root_keys";
             "net_id"; "join_server_address"] n = Some k ->
  let ctx := {| Yup.externalJs := VBool e; lorawanVersion := version |} in
  cast assert sch ctx (VObj props) r = Normal (out, r') ->
  (exists p, out = VObj p)
  /\ if stripped (top_schema n e version)
     then has out k = false
     else exists q1 new q2,
         cast assert (top_schema n e version) ctx (get (VObj props) k) q1
         = Normal (new, q2)
         /\ get out k = new.
Proof.
  intros Hn ctx H.
  assert (Hin : In (k, top_field n) (fields_of sch)).
  { destruct n as [| [| [| [| [| n]]]]];
      try (destruct n; discriminate Hn); injection Hn as <-; simpl; auto 10. }
  pose proof (cast_object_field assert ctx m0 (fields_of sch) (VObj props)
                props r r out r' k (top_field n) eq_refl sch_nodup H Hin)
    as Hf.
  destruct n as [| [| [| [| [| n]]]]];
    try (destruct n; discriminate Hn); exact Hf.
Qed.

(** The fields of the form other than [root_keys] leave the generator
    alone. *)
Lemma top_field_quiet (assert : bool) (n : nat) (e : bool) (version old : value) :
  n <> 2 -> n < 5 ->
  field_quiet assert
    {| Yup.externalJs := VBool e; lorawanVersion := version |}
    (top_field n) old.
Proof.
  intros H2 H5. right. intros q new q'.
  apply mixed_quiet.
  - intros m fs. fold (top_schema n e version).
    replace (resolve (top_field n)
               {| Yup.externalJs := VBool e; lorawanVersion := version |} old)
      with (top_schema n e version)
      by (destruct n as [| [| [| [| [| n]]]]]; try lia; reflexivity).
    now apply top_schema_mixed.
  - intros g.
    destruct n as [| [| [| [| [| n]]]]]; try lia; try contradiction;
      cbn [top_field nth snd fields_of sch validationSchema object_ shape app
           resolve when_fn when_schema Yup.externalJs lorawanVersion rev
           sortFields];
      try destruct e; try destruct (ge _ _); discriminate.
Qed.

Lemma sch_split :
  sch = SObject m0 ([("_external_js", top_field 0);
                     ("resets_join_nonces", top_field 1)]
                    ++ ("root_keys", rootKeysField)
                    :: [("net_id", top_field 3);
                        ("join_server_address", top_field 4)]).
Proof. reflexivity. Qed.

(** The [root_keys] of a cast form value, and the generator: the object is
    cast at the state the cast of the form value starts in and leaves the
    state that cast ends in. *)
Lemma cast_root_keys_at (assert e : bool) (version : value)
    (props : list (string * value)) (r : rng) (out : value) (r' : rng) :
  let ctx := {| Yup.externalJs := VBool e; lorawanVersion := version |} in
  cast assert sch ctx (VObj props) r = Normal (out, r') ->
  cast assert (rootKeys e (lt (parseLorawanMacVersion version) 110)) ctx
       (get (VObj props) "root_keys") r
  = Normal (get out "root_keys", r').
Proof.
  intros ctx H. rewrite sch_split in H.
  apply (cast_object_field_at assert ctx m0 _ _ (VObj props) props r r) in H
    as (a1 & c1 & q1 & new & q2 & a2 & c2 & a3 & c3 & H1 & Hc & Hget & H2);
    [| reflexivity | exact sch_nodup
     | unfold ctx; rewrite rootKeysField_resolve;
       now destruct e, (lt (parseLorawanMacVersion version) 110)].
  apply cast_fields_quiet in H1, H2.
  - subst q1 r'. unfold ctx in Hc. rewrite rootKeysField_resolve in Hc.
    now rewrite Hget.
  - intros k f [E | [E | []]]; injection E as <- <-;
      apply top_field_quiet; lia.
  - intros k f [E | [E | []]]; injection E as <- <-;
      apply top_field_quiet; lia.
Qed.

(** The cast of a key object that is not there draws its key. *)
Lemma keyObject_default (assert : bool) (ctx : context) (r : rng) :
  cast assert keyObject ctx VUndef r
  = Normal (VObj [("key", VStr (fst (randomByteString 32 r)))],
            snd (randomByteString 32 r)).
Proof.
  cbn. unfold random16BytesString.
  now destruct (randomByteString 32 r) as [k q].
Qed.

(** C2 (amended). Under [externalJs = false] and a version parsed to at
    least 110, the cast of a device whose [root_keys] is an object without
    [nwk_key] and [app_key] has both [root_keys.app_key.key] and
    [root_keys.nwk_key.key], each a string drawn from the generator:
    [randomByteString(32)] at the state the cast starts in for [app_key],
    the draw after it for [nwk_key], and no draw besides (so 32 hexadecimal
    characters each, when that is what the generator hands out); and
    casting the output again under the same context returns it unchanged,
    with no draw from the generator. *)
Theorem cast_generates_root_keys_once (version : value)
    (props rk : list (string * value)) (r : rng) (out : value) (r' : rng) :
  ge (parseLorawanMacVersion version) 110 = true ->
  get (VObj props) "root_keys" = VObj rk ->
  get (VObj rk) "nwk_key" = VUndef ->
  get (VObj rk) "app_key" = VUndef ->
  cast true sch {| Yup.externalJs := VBool false; lorawanVersion := version |}
       (VObj props) r = Normal (out, r') ->
  let app := randomByteString 32 r in
  let nwk := randomByteString 32 (snd app) in
  get (get (get out "root_keys") "app_key") "key" = VStr (fst app)
  /\ get (get (get out "root_keys") "nwk_key") "key" = VStr (fst nwk)
  /\ r' = snd nwk
  /\ ((forall q, String.length (fst (randomByteString 32 q)) = 32
                  /\ is_hex (fst (randomByteString 32 q)) = true) ->
       String.length (fst app) = 32 /\ is_hex (fst app) = true
       /\ String.length (fst nwk) = 32 /\ is_hex (fst nwk) = true)
  /\ forall r2,
       cast true sch
            {| Yup.externalJs := VBool false; lorawanVersion := version |}
            out r2 = Normal (out, r2).
Proof.
  intros Hge Hrk Hnwk Happ H app nwk.
  assert (Hagain : forall r2,
             cast true sch
               {| Yup.externalJs := VBool false; lorawanVersion := version |}
               out r2 = Normal (out, r2)).
  { apply (cast_again false version props r out r'); trivial.
    rewrite Hrk. discriminate. }
  apply cast_root_keys_at in H.
  rewrite (ge_not_lt _ _ Hge), Hrk in H.
  set (ctx := {| Yup.externalJs := VBool false; lorawanVersion := version |})
    in *.
  assert (Esplit : rootKeys false false
                   = SObject m0 ([] ++ ("app_key", keyLazy)
                                 :: [("nwk_key", keyLazy)])) by reflexivity.
  assert (Esplit' : rootKeys false false
                    = SObject m0 ([("app_key", keyLazy)]
                                  ++ ("nwk_key", keyLazy) :: [])) by reflexivity.
  pose proof H as Ha. rewrite Esplit in Ha.
  apply (cast_object_field_at true ctx m0 _ _ (VObj rk) rk r r) in Ha
    as (a1 & c1 & q1 & new & q2 & a2 & c2 & a3 & c3 & H1 & Hc & Hget & _);
    [| reflexivity | apply (rootKeys_nodup false false) | reflexivity].
  cbn in H1. injection H1 as _ _ <-.
  cbn [resolve keyLazy] in Hc. rewrite Happ, keyObject_default in Hc.
  injection Hc as <- <-.
  pose proof H as Hn. rewrite Esplit' in Hn.
  apply (cast_object_field_at true ctx m0 _ _ (VObj rk) rk r r) in Hn
    as (b1 & d1 & p1 & new' & p2 & b2 & d2 & b3 & d3 & H1 & Hc & Hget' & H2);
    [| reflexivity | apply (rootKeys_nodup false false) | reflexivity].
  rewrite cast_fields_cons in H1. cbv zeta in H1.
  cbn [resolve keyLazy] in H1. rewrite Happ, keyObject_default in H1.
  change (stripped keyObject) with false in H1. cbv iota in H1.
  cbn [cast_fields] in H1. injection H1 as _ _ <-.
  cbn [resolve keyLazy] in Hc. rewrite Hnwk, keyObject_default in Hc.
  injection Hc as <- <-. cbn [cast_fields] in H2. injection H2 as _ _ <-.
  rewrite Hget, Hget'. fold app. fold nwk.
  split; [reflexivity |]. split; [reflexivity |]. split; [reflexivity |].
  split; [| exact Hagain].
  intros Hgen. destruct (Hgen r) as [? ?]. destruct (Hgen (snd app)) as [? ?].
  auto.
Qed.

(** C7. Under [externalJs = false], [net_id] is an optional string: it
    defaults to the empty string under cast, and validate accepts it exactly
    when it is empty or 6 hexadecimal characters, reporting the length error
    [validate6] at [net_id] otherwise; under [externalJs = true] the field
    is removed from the output and nothing is reported at [net_id]. *)
Theorem net_id_rule (version : value) (props : list (string * value))
    (r : rng) :
  let ctx e := {| Yup.externalJs := VBool e; lorawanVersion := version |} in
  (forall s, get (VObj props) "net_id" = VStr s ->
             errors_at "net_id" (validate sch (ctx false) (VObj props) r) =
             if String.eqb s "" || Nat.eqb (String.length s) 6 && is_hex s
             then []
             else [{| path := "net_id"; message := validate6 |}])
  /\ (get (VObj props) "net_id" = VUndef \/ get (VObj props) "net_id" = VNull ->
      errors_at "net_id" (validate sch (ctx false) (VObj props) r) = [])
  /\ (get (VObj props) "net_id" = VUndef ->
      forall out r',
        cast true sch (ctx false) (VObj props) r = Normal (out, r') ->
        get out "net_id" = VStr "")
  /\ errors_at "net_id" (validate sch (ctx true) (VObj props) r) = []
  /\ (forall out r',
        validate sch (ctx true) (VObj props) r = Fulfilled (out, r') ->
        has out "net_id" = false)
  /\ (forall out r',
        cast true sch (ctx true) (VObj props) r = Normal (out, r') ->
        has out "net_id" = false).
Proof.
  intros ctx. subst ctx. cbv beta. repeat split.
  - intros s Hs.
    destruct (cast_false_total sch
                {| Yup.externalJs := VBool false; lorawanVersion := version |}
                (VObj props) r) as [[out r'] H].
    rewrite (errors_at_validate _ _ _ _ _ _ _ H).
    destruct (cast_top_field false 3 "net_id" false version props r out r'
                eq_refl H) as [[p ->] Hf].
    rewrite (top_errors_at 3 "net_id" false version p eq_refl) by discriminate.
    strip_is Hf false. destruct Hf as (q1 & new & q2 & Hcast & ->).
    rewrite Hs in Hcast. injection Hcast as <- <-.
    cbn. destruct (_ || _); reflexivity.
  - intros Hs.
    destruct (cast_false_total sch
                {| Yup.externalJs := VBool false; lorawanVersion := version |}
                (VObj props) r) as [[out r'] H].
    rewrite (errors_at_validate _ _ _ _ _ _ _ H).
    destruct (cast_top_field false 3 "net_id" false version props r out r'
                eq_refl H) as [[p ->] Hf].
    rewrite (top_errors_at 3 "net_id" false version p eq_refl) by discriminate.
    strip_is Hf false. destruct Hf as (q1 & new & q2 & Hcast & ->).
    destruct Hs as [Hs | Hs]; rewrite Hs in Hcast; injection Hcast as <- <-;
      reflexivity.
  - intros Hu out r' H.
    destruct (cast_top_field true 3 "net_id" false version props r out r'
                eq_refl H) as [_ Hf].
    strip_is Hf false. destruct Hf as (q1 & new & q2 & Hcast & ->).
    rewrite Hu in Hcast. now injection Hcast as <- <-.
  - destruct (cast_false_total sch
                {| Yup.externalJs := VBool true; lorawanVersion := version |}
                (VObj props) r) as [[out r'] H].
    rewrite (errors_at_validate _ _ _ _ _ _ _ H).
    destruct (cast_top_field false 3 "net_id" true version props r out r'
                eq_refl H) as [[p ->] Hf].
    rewrite (top_errors_at 3 "net_id" true version p eq_refl) by discriminate.
    strip_is Hf true. rewrite (has_false_get _ _ Hf). reflexivity.
  - intros out r' H. apply validate_fulfilled in H as [H _].
    destruct (cast_top_field false 3 "net_id" true version props r out r'
                eq_refl H) as [_ Hf].
    strip_is Hf true. exact Hf.
  - intros out r' H.
    destruct (cast_top_field true 3 "net_id" true version props r out r'
                eq_refl H) as [_ Hf].
    strip_is Hf true. exact Hf.
Qed.

(** C6. Under [externalJs = false], [join_server_address] defaults under
    cast to the host name of the configured base URL; a validation that
    succeeds has an address, and one that matches the address pattern; an
    address that does not match is reported at [join_server_address].  Under
    [externalJs = true] the field is removed from the output and nothing is
    reported for it. *)
Theorem join_server_address_rule (version : value)
    (props : list (string * value)) (r : rng) :
  let ctx e := {| Yup.externalJs := VBool e; lorawanVersion := version |} in
  (get (VObj props) "join_server_address" = VUndef ->
   forall out r',
     cast true sch (ctx false) (VObj props) r = Normal (out, r') ->
     get out "join_server_address" = VStr js_hostname)
  /\ (forall out r',
        validate sch (ctx false) (VObj props) r = Fulfilled (out, r') ->
        exists s, get out "join_server_address" = VStr s
                  /\ addressRegexp s = true)
  /\ (forall s, get (VObj props) "join_server_address" = VStr s ->
        errors_at "join_server_address"
                  (validate sch (ctx false) (VObj props) r) =
        if addressRegexp s then []
        else [{| path := "join_server_address";
                 message := validateAddressFormat |}])
  /\ errors_at "join_server_address"
               (validate sch (ctx true) (VObj props) r) = []
  /\ (forall out r',
        validate sch (ctx true) (VObj props) r = Fulfilled (out, r') ->
        has out "join_server_address" = false).
Proof.
  intros ctx. subst ctx. cbv beta. repeat split.
  - intros Hu out r' H.
    destruct (cast_top_field true 4 "join_server_address" false version props
                r out r' eq_refl H) as [_ Hf].
    strip_is Hf false. destruct Hf as (q1 & new & q2 & Hcast & ->).
    rewrite Hu in Hcast. now injection Hcast as <- <-.
  - intros out r' H. apply validate_fulfilled in H as [H Herr].
    destruct (cast_top_field false 4 "join_server_address" false version props
                r out r' eq_refl H) as [[p ->] Hf].
    pose proof (top_errors_at 4 "join_server_address" false version p eq_refl)
      as Hat.
    cbv zeta in Hat. rewrite Herr in Hat by discriminate.
    specialize (Hat ltac:(discriminate)). simpl filter in Hat.
    strip_is Hf false. destruct Hf as (q1 & new & q2 & Hcast & Hnew).
    rewrite Hnew in Hat.
    destruct (get (VObj props) "join_server_address"); cbv in Hcast;
      injection Hcast as <- <-; rewrite Hnew; cbn in Hat;
      try discriminate Hat;
      (eexists; split; [reflexivity |]);
      match type of Hat with
      | context [addressRegexp ?x] => now destruct (addressRegexp x)
      end.
  - intros s Hs.
    destruct (cast_false_total sch
                {| Yup.externalJs := VBool false; lorawanVersion := version |}
                (VObj props) r) as [[out r'] H].
    rewrite (errors_at_validate _ _ _ _ _ _ _ H).
    destruct (cast_top_field false 4 "join_server_address" false version props
                r out r' eq_refl H) as [[p ->] Hf].
    rewrite (top_errors_at 4 "join_server_address" false version p eq_refl)
      by discriminate.
    strip_is Hf false. destruct Hf as (q1 & new & q2 & Hcast & ->).
    rewrite Hs in Hcast. injection Hcast as <- <-.
    cbn. destruct (addressRegexp s); reflexivity.
  - destruct (cast_false_total sch
                {| Yup.externalJs := VBool true; lorawanVersion := version |}
                (VObj props) r) as [[out r'] H].
    rewrite (errors_at_validate _ _ _ _ _ _ _ H).
    destruct (cast_top_field false 4 "join_server_address" true version props
                r out r' eq_refl H) as [[p ->] Hf].
    rewrite (top_errors_at 4 "join_server_address" true version p eq_refl)
      by discriminate.
    strip_is Hf true. rewrite (has_false_get _ _ Hf). reflexivity.
  - intros out r' H. apply validate_fulfilled in H as [H _].
    destruct (cast_top_field false 4 "join_server_address" true version props
                r out r' eq_refl H) as [_ Hf].
    strip_is Hf true. exact Hf.
Qed.

End SchemaFacts.

(** ** The hidden-key predicates *)

(** Where the key field is not [null], the predicate returns, and returns
    [true] exactly for a key object without properties under a [root_keys]
    that is there. *)
Lemma isKeyHidden_spec (key : string) (props : list (string * value)) :
  get (get (VObj props) "root_keys") key <> VNull ->
  isKeyHidden key (VObj props) =
  Normal (truthy (get (VObj props) "root_keys")
          && match get (get (VObj props) "root_keys") key with
             | VObj [] => true
             | _ => false
             end).
Proof.
  intros Hnull. unfold isKeyHidden.
  destruct (truthy (get (VObj props) "root_keys")); [| reflexivity].
  cbn [negb andb].
  destruct (get (get (VObj props) "root_keys") key) as [| | b | s | [| kv ps]];
    try reflexivity.
  now exfalso.
Qed.

(** C10. At a device whose [root_keys.nwk_key] (or [root_keys.app_key]) is
    [null] the predicate does not return a boolean: [typeof null] is
    ['object'], and [Object.keys(null)] throws. *)
Theorem isKeyHidden_null_throws :
  isNwkKeyHidden (VObj [("root_keys", VObj [("nwk_key", VNull)])]) = TypeError
  /\ isAppKeyHidden (VObj [("root_keys", VObj [("app_key", VNull)])]) = TypeError
  /\ isNwkKeyHidden (VObj [("root_keys", VObj [("nwk_key", VObj [])])])
     = Normal true
  /\ isNwkKeyHidden (VObj [("root_keys", VObj [])]) = Normal false
  /\ isNwkKeyHidden
       (VObj [("root_keys", VObj [("nwk_key", VObj [("key", VStr "00")])])])
     = Normal false.
Proof. repeat split. Qed.

(** ** The form *)

Section FormFacts.

Context {rng : Type}.
Variable JSON_parse : string -> value.
Variable randomByteString : nat -> rng -> string * rng.
Variable addressRegexp : string -> bool.
Variable js_hostname : string.
Variable parseLorawanMacVersion : value -> number.
Variable hasExternalJs : value -> bool.
Variable diff : value -> value -> list string -> value.
Variable device : value.

Let schema_ : schema rng :=
  Form.schema_ JSON_parse randomByteString addressRegexp js_hostname
    parseLorawanMacVersion.
Let context_of : bool -> context := Form.context_of device.
Let step : Form.state rng -> Form.event -> Form.state rng :=
  Form.step JSON_parse randomByteString addressRegexp js_hostname
    parseLorawanMacVersion diff device.
Let run : Form.state rng -> list Form.event -> Form.state rng :=
  Form.run JSON_parse randomByteString addressRegexp js_hostname
    parseLorawanMacVersion diff device.
Let onFormSubmit : Form.settled -> Form.state rng -> Form.outcome rng :=
  Form.onFormSubmit JSON_parse randomByteString addressRegexp js_hostname
    parseLorawanMacVersion diff device.
Let handleExternalJsChange : bool -> Form.state rng -> Form.outcome rng :=
  Form.handleExternalJsChange JSON_parse randomByteString addressRegexp
    js_hostname parseLorawanMacVersion device.

Lemma step_flag (st : Form.state rng) (e : Form.event) :
  Form.resetsJoinNonces (step st e) = Form.resetsJoinNonces st
  \/ Form.resetsJoinNonces (step st e) = VBool false.
Proof.
  destruct e as [vs | | checked | result]; simpl.
  - now left.
  - destruct (Form.externalJs st); [now right | now left].
  - unfold Form.handleExternalJsChange. destruct (cast _ _ _ _ _) as [[vs r] |];
      now left.
  - unfold Form.onFormSubmit. destruct (cast _ _ _ _ _) as [[vs r] |];
      [destruct result |]; now left.
Qed.

(** C9. The handler of the resets-join-nonces checkbox sets the flag to
    [false] when [externalJs] is set and leaves it as it is otherwise; over
    any run of the form a flag that is false stays false. *)
Theorem resets_join_nonces_never_raised :
  (forall st : Form.state rng,
      Form.resetsJoinNonces (Form.handleResetsJoinNoncesChange st) =
      if Form.externalJs st then VBool false else Form.resetsJoinNonces st)
  /\ (forall (st : Form.state rng) (es : list Form.event),
        truthy (Form.resetsJoinNonces st) = false ->
        truthy (Form.resetsJoinNonces (run st es)) = false).
Proof.
  split; [reflexivity |].
  intros st es. revert st.
  induction es as [| e es IH]; intros st H; [exact H |].
  simpl. apply IH. fold (step st e).
  destruct (step_flag st e) as [-> | ->]; [exact H | reflexivity].
Qed.

Let validate_ : Form.state rng -> validation (value * rng) :=
  Form.validate_ JSON_parse randomByteString addressRegexp js_hostname
    parseLorawanMacVersion device.

(** The validation the form runs has no context and none of the form's
    values to look at: it is fulfilled, with the defaults of an empty form
    next to the object it was handed. *)
Lemma validate_fulfils (st : Form.state rng) :
  validate_ st =
  Fulfilled
    (VObj ([("_external_js", VBool false)]
           ++ (if ge (parseLorawanMacVersion VUndef) 110
               then [("resets_join_nonces", VBool false)] else [])
           ++ [("root_keys", VObj [("app_key", VUndef); ("nwk_key", VUndef)]);
               ("net_id", VStr "");
               ("context",
                VObj [("externalJs", VBool (Form.externalJs st));
                      ("lorawanVersion", get device "lorawan_version")])]),
     Form.gen st).
Proof.
  unfold validate_. cbv -[lt ge].
  destruct (lt (parseLorawanMacVersion VUndef) 110),
    (ge (parseLorawanMacVersion VUndef) 110); reflexivity.
Qed.

(** C3. The [validate] callback hands the schema's [validate] an object that
    holds the context and nothing else, and no options, so no context; two
    states of the form with the same [externalJs] flag (and the same device)
    get the same result, whatever values the form holds. *)
Theorem validate_ignores_form_values :
  (forall st : Form.state rng,
      validate_ st =
      validate schema_ no_context
        (VObj [("context",
                VObj [("externalJs", VBool (Form.externalJs st));
                      ("lorawanVersion", get device "lorawan_version")])])
        (Form.gen st))
  /\ (forall st1 st2 : Form.state rng,
        Form.externalJs st1 = Form.externalJs st2 ->
        settle (validate_ st1) = settle (validate_ st2)).
Proof.
  split; [reflexivity |]. intros st1 st2 E.
  rewrite !validate_fulfils, E. reflexivity.
Qed.

(** C5. A submit casts the values of the form under the current context and
    calls [onSubmit] with the difference between the initial values and the
    cast, the keys [_external_js] and [_lorawan_version] left out; the call
    is made whatever the difference is, empty or not, and however the call
    settles. *)
Theorem submit_calls_onSubmit_with_diff (st : Form.state rng)
    (result : Form.settled) (castedValues : value) (r' : rng) :
  cast true schema_ (context_of (Form.externalJs st)) (Form.values st)
       (Form.gen st) = Normal (castedValues, r') ->
  Form.submitted (Form.state_of (onFormSubmit result st)) =
  Form.submitted st
  ++ [diff (Form.initialValues st) castedValues
           ["_external_js"; "_lorawan_version"]].
Proof.
  intros H. unfold onFormSubmit, Form.onFormSubmit.
  fold schema_. fold context_of. rewrite H. now destruct result.
Qed.

(** C8 (amended). When the promise of [onSubmit] rejects, the handler
    clears the submitting flag and keeps the error as the form's error; the
    form is not reset: it keeps the values it held at the submit, as they
    were entered, and its baseline (the cast values went into the difference
    handed to [onSubmit] and are dropped).  When the promise resolves, the
    form is reset to the cast values, which become its values and its
    baseline, and the error is cleared. *)
Theorem submit_failure_keeps_form (st : Form.state rng) (err : value)
    (castedValues : value) (r' : rng) :
  cast true schema_ (context_of (Form.externalJs st)) (Form.values st)
       (Form.gen st) = Normal (castedValues, r') ->
  (exists st', onFormSubmit (Form.Rejects err) st = Form.Returned st'
               /\ Form.submitting st' = false
               /\ Form.error st' = err
               /\ Form.values st' = Form.values st
               /\ Form.baseline st' = Form.baseline st
               /\ Form.submitted st'
                  = Form.submitted st
                    ++ [diff (Form.initialValues st) castedValues
                             ["_external_js"; "_lorawan_version"]])
  /\ (exists st', onFormSubmit Form.Resolves st = Form.Returned st'
                  /\ Form.submitting st' = false
                  /\ Form.error st' = VStr ""
                  /\ Form.values st' = castedValues
                  /\ Form.baseline st' = castedValues).
Proof.
  intros H. unfold onFormSubmit, Form.onFormSubmit.
  fold schema_. fold context_of. rewrite H.
  split; eexists; (split; [reflexivity |]); repeat split.
Qed.

Lemma step_initialValues (st : Form.state rng) (e : Form.event) :
  Form.initialValues (step st e) = Form.initialValues st.
Proof.
  destruct e as [vs | | checked | result]; simpl; trivial.
  - unfold Form.handleExternalJsChange.
    now destruct (cast _ _ _ _ _) as [[vs r] |].
  - unfold Form.onFormSubmit.
    destruct (cast _ _ _ _ _) as [[vs r] |]; [now destruct result | trivial].
Qed.

Lemma run_initialValues (st : Form.state rng) (es : list Form.event) :
  Form.initialValues (run st es) = Form.initialValues st.
Proof.
  revert st. induction es as [| e es IH]; intros st; [reflexivity |].
  simpl. fold (step st e). unfold run in IH. rewrite IH.
  apply step_initialValues.
Qed.

Lemma run_app (st : Form.state rng) (es es' : list Form.event) :
  run st (es ++ es') = run (run st es) es'.
Proof. apply fold_left_app. Qed.

End FormFacts.

(** ** The schema and the form on sample devices *)

Lemma string_of_list_ascii_length (l : list ascii) :
  String.length (string_of_list_ascii l) = List.length l.
Proof. induction l as [| c l IH]; simpl; congruence. Qed.

Lemma hex_digit_is_hex (n : nat) : is_hex_char (Sample.hex_digit n) = true.
Proof.
  unfold Sample.hex_digit.
  set (m := Nat.modulo n 16). clearbody m.
  do 16 (destruct m as [| m]; [reflexivity |]). reflexivity.
Qed.

(** The sample generator hands out 32 hexadecimal characters when asked for
    32. *)
Lemma sample_randomByteString_hex (q : Sample.rng) :
  String.length (fst (Sample.randomByteString 32 q)) = 32
  /\ is_hex (fst (Sample.randomByteString 32 q)) = true.
Proof.
  unfold Sample.randomByteString, is_hex. cbn [fst]. split.
  - now rewrite string_of_list_ascii_length, length_map, length_seq.
  - rewrite list_ascii_of_string_of_list_ascii. apply forallb_forall.
    intros c Hc. apply in_map_iff in Hc as (i & <- & _).
    apply hex_digit_is_hex.
Qed.

(** With [root_keys] absent, the cast under [externalJs = false] and version
    1.1.0 leaves both key fields undefined, and casting the output again
    does change it: the second cast draws the keys. *)
Lemma cast_absent_root_keys_counterexample :
  ge (Sample.parseLorawanMacVersion (VStr "1.1.0")) 110 = true
  /\ get (VObj []) "root_keys" = VUndef
  /\ cast true Sample.validationSchema (Sample.context_ false "1.1.0")
          (VObj []) 0 = Normal (absent_root_keys_cast, 0)
  /\ nwk_key_of absent_root_keys_cast = VUndef
  /\ app_key_of absent_root_keys_cast = VUndef
  /\ cast true Sample.validationSchema (Sample.context_ false "1.1.0")
          absent_root_keys_cast 0 = Normal (absent_root_keys_cast_again, 2)
  /\ absent_root_keys_cast_again <> absent_root_keys_cast.
Proof.
  repeat split; try reflexivity. discriminate.
Qed.

Lemma cast_generates_root_keys_once_witness :
  exists out r',
    cast true Sample.validationSchema (Sample.context_ false "1.1.0")
         device_local 0 = Normal (out, r')
    /\ app_key_of out = VStr "147ad0369cf258be147ad0369cf258be"
    /\ nwk_key_of out = VStr "8be147ad0369cf258be147ad0369cf25"
    /\ r' = 2
    /\ cast true Sample.validationSchema (Sample.context_ false "1.1.0")
            out r' = Normal (out, r').
Proof.
  destruct (cast true Sample.validationSchema (Sample.context_ false "1.1.0")
              device_local 0) as [[out r'] |] eqn:H; [| discriminate H].
  destruct (cast_generates_root_keys_once Sample.JSON_parse
              Sample.randomByteString Sample.addressRegexp Sample.js_hostname
              Sample.parseLorawanMacVersion (VStr "1.1.0")
              [("lorawan_version", VStr "1.1.0");
               ("join_server_address", VStr "js.example.com");
               ("net_id", VStr "000013");
               ("root_keys", VObj [])] [] 0 out r'
              eq_refl eq_refl eq_refl eq_refl H)
    as (Happ & Hnwk & Hgen & _ & Hagain).
  exists out, r'. split; [reflexivity |].
  split; [exact Happ |]. split; [exact Hnwk |]. split; [exact Hgen |].
  apply Hagain.
Defined.

Lemma submit_calls_onSubmit_with_diff_witness :
  match sample_mount device_local with
  | Normal st0 =>
      Form.submitted
        (Form.state_of
           (Form.onFormSubmit Sample.JSON_parse Sample.randomByteString
              Sample.addressRegexp Sample.js_hostname
              Sample.parseLorawanMacVersion Sample.diff device_local
              Form.Resolves st0)) = [VObj []]
  | TypeError => False
  end.
Proof.
  destruct (sample_mount device_local) as [st0 |] eqn:Hm;
    [| vm_compute in Hm; discriminate Hm].
  vm_compute in Hm. injection Hm as <-.
  erewrite (submit_calls_onSubmit_with_diff Sample.JSON_parse
              Sample.randomByteString Sample.addressRegexp Sample.js_hostname
              Sample.parseLorawanMacVersion Sample.diff device_local);
    [| vm_compute; reflexivity].
  vm_compute. reflexivity.
Defined.

Lemma submit_failure_keeps_form_witness :
  match sample_mount device_local with
  | Normal st0 =>
      let st := Form.edit (VObj [("net_id", VStr "ffffff")]) st0 in
      exists st',
        Form.onFormSubmit Sample.JSON_parse Sample.randomByteString
          Sample.addressRegexp Sample.js_hostname
          Sample.parseLorawanMacVersion Sample.diff device_local
          (Form.Rejects (VStr "unavailable")) st = Form.Returned st'
        /\ Form.submitting st' = false
        /\ Form.error st' = VStr "unavailable"
        /\ Form.values st' = VObj [("net_id", VStr "ffffff")]
  | TypeError => False
  end.
Proof.
  destruct (sample_mount device_local) as [st0 |] eqn:Hm;
    [| vm_compute in Hm; discriminate Hm].
  vm_compute in Hm. injection Hm as <-. cbv zeta.
  match goal with
  | |- context [Form.edit _ ?s] =>
      edestruct (submit_failure_keeps_form Sample.JSON_parse
                   Sample.randomByteString Sample.addressRegexp
                   Sample.js_hostname Sample.parseLorawanMacVersion
                   Sample.diff device_local
                   (Form.edit (VObj [("net_id", VStr "ffffff")]) s)
                   (VStr "unavailable"))
        as [(st' & H1 & H2 & H3 & H4 & _) _]; [vm_compute; reflexivity |]
  end.
  exists st'. repeat split; assumption.
Defined.

(** A submit that is rejected, of a form whose keys were left blank: the
    cast draws the keys, and the form keeps the values as entered, without
    them. *)
Lemma submit_failure_drops_cast_values_counterexample :
  match sample_mount device_local with
  | Normal st0 =>
      let st :=
        Form.edit (VObj [("join_server_address", VStr "js.example.com");
                         ("net_id", VStr "ffffff");
                         ("root_keys", VObj [])]) st0 in
      match cast true Sample.validationSchema (Sample.context_ false "1.1.0")
                 (Form.values st) (Form.gen st) with
      | Normal (castedValues, _) =>
          let st' :=
            Form.state_of
              (Form.onFormSubmit Sample.JSON_parse Sample.randomByteString
                 Sample.addressRegexp Sample.js_hostname
                 Sample.parseLorawanMacVersion Sample.diff device_local
                 (Form.Rejects (VStr "unavailable")) st) in
          Form.values st' = Form.values st
          /\ Form.values st' <> castedValues
          /\ app_key_of (Form.values st') = VUndef
          /\ app_key_of castedValues = VStr "f258be147ad0369cf258be147ad0369c"
      | TypeError => False
      end
  | TypeError => False
  end.
Proof.
  vm_compute. repeat split. discriminate.
Qed.

Lemma net_id_rule_witness :
  errors_at "net_id"
    (validate Sample.validationSchema (Sample.context_ false "1.1.0")
       (VObj [("net_id", VStr "abcd")]) 0)
  = [{| path := "net_id"; message := validate6 |}]
  /\ errors_at "net_id"
       (validate Sample.validationSchema (Sample.context_ false "1.1.0")
          (VObj [("net_id", VStr "abc123")]) 0)
     = []
  /\ errors_at "net_id"
       (validate Sample.validationSchema (Sample.context_ false "1.1.0")
          (VObj [("net_id", VStr "zzzzzz")]) 0)
     = [{| path := "net_id"; message := validate6 |}]
  /\ errors_at "net_id"
       (validate Sample.validationSchema (Sample.context_ false "1.1.0")
          (VObj [("net_id", VNull)]) 0)
     = []
  /\ (forall out r',
         cast true Sample.validationSchema (Sample.context_ false "1.1.0")
              (VObj []) 0 = Normal (out, r') ->
         get out "net_id" = VStr "")
  /\ (forall out r',
         cast true Sample.validationSchema (Sample.context_ true "1.1.0")
              (VObj [("net_id", VStr "abc123")]) 0 = Normal (out, r') ->
         has out "net_id" = false).
Proof.
  pose proof (fun props =>
                net_id_rule Sample.JSON_parse Sample.randomByteString
                  Sample.addressRegexp Sample.js_hostname
                  Sample.parseLorawanMacVersion (VStr "1.1.0") props 0)
    as Hrule.
  cbv beta zeta in Hrule. split; [| split; [| split; [| split; [| split]]]].
  - exact (proj1 (Hrule [("net_id", VStr "abcd")]) "abcd" eq_refl).
  - exact (proj1 (Hrule [("net_id", VStr "abc123")]) "abc123" eq_refl).
  - exact (proj1 (Hrule [("net_id", VStr "zzzzzz")]) "zzzzzz" eq_refl).
  - exact (proj1 (proj2 (Hrule [("net_id", VNull)])) (or_intror eq_refl)).
  - exact (proj1 (proj2 (proj2 (Hrule []))) eq_refl).
  - destruct (Hrule [("net_id", VStr "abc123")]) as (_ & _ & _ & _ & _ & H).
    exact H.
Defined.

Lemma join_server_address_rule_witness :
  errors_at "join_server_address"
    (validate Sample.validationSchema (Sample.context_ false "1.1.0")
       (VObj [("join_server_address", VStr "not a host!!")]) 0)
  = [{| path := "join_server_address"; message := validateAddressFormat |}]
  /\ errors_at "join_server_address"
       (validate Sample.validationSchema (Sample.context_ true "1.1.0")
          (VObj [("join_server_address", VStr "not a host!!")]) 0)
     = []
  /\ (forall out r',
         cast true Sample.validationSchema (Sample.context_ false "1.1.0")
              (VObj []) 0 = Normal (out, r') ->
         get out "join_server_address" = VStr Sample.js_hostname).
Proof.
  pose proof (join_server_address_rule Sample.JSON_parse
                Sample.randomByteString Sample.addressRegexp
                Sample.js_hostname Sample.parseLorawanMacVersion
                (VStr "1.1.0")
                [("join_server_address", VStr "not a host!!")] 0)
    as (_ & _ & Hbad & Hext & _).
  pose proof (join_server_address_rule Sample.JSON_parse
                Sample.randomByteString Sample.addressRegexp
                Sample.js_hostname Sample.parseLorawanMacVersion
                (VStr "1.1.0") [] 0) as (Hdefault & _).
  split; [| split].
  - exact (Hbad "not a host!!" eq_refl).
  - exact Hext.
  - exact (Hdefault eq_refl).
Defined.

Lemma resets_join_nonces_never_raised_witness :
  match sample_mount device_external with
  | Normal st0 =>
      truthy (Form.resetsJoinNonces
                (Form.run Sample.JSON_parse Sample.randomByteString
                   Sample.addressRegexp Sample.js_hostname
                   Sample.parseLorawanMacVersion Sample.diff device_external
                   st0
                   [Form.ResetsJoinNoncesChange; Form.ExternalJsChange false;
                    Form.ResetsJoinNoncesChange;
                    Form.Edit (VObj [("resets_join_nonces", VBool true)]);
                    Form.ResetsJoinNoncesChange])) = false
  | TypeError => False
  end.
Proof.
  destruct (sample_mount device_external) as [st0 |] eqn:Hm;
    [| vm_compute in Hm; discriminate Hm].
  apply (proj2 (resets_join_nonces_never_raised Sample.JSON_parse
                  Sample.randomByteString Sample.addressRegexp
                  Sample.js_hostname Sample.parseLorawanMacVersion
                  Sample.diff device_external)).
  vm_compute in Hm. injection Hm as <-. reflexivity.
Defined.

Lemma validate_ignores_form_values_witness :
  match sample_mount device_local with
  | Normal st0 =>
      settle (Form.validate_ Sample.JSON_parse Sample.randomByteString
                Sample.addressRegexp Sample.js_hostname
                Sample.parseLorawanMacVersion device_local st0)
      = settle (Form.validate_ Sample.JSON_parse Sample.randomByteString
                  Sample.addressRegexp Sample.js_hostname
                  Sample.parseLorawanMacVersion device_local
                  (Form.edit (VObj [("net_id", VStr "abcd");
                                    ("join_server_address", VStr "not a host!!")])
                             st0))
  | TypeError => False
  end.
Proof.
  destruct (sample_mount device_local) as [st0 |] eqn:Hm;
    [| vm_compute in Hm; discriminate Hm].
  apply (proj2 (validate_ignores_form_values Sample.JSON_parse
                  Sample.randomByteString Sample.addressRegexp
                  Sample.js_hostname Sample.parseLorawanMacVersion
                  device_local)).
  reflexivity.
Defined.

(** ** More on the schema: the other fields *)

Section SchemaRules.

Context {rng : Type}.
Variable JSON_parse : string -> value.
Variable randomByteString : nat -> rng -> string * rng.
Variable addressRegexp : string -> bool.
Variable js_hostname : string.
Variable parseLorawanMacVersion : value -> number.

Let sch : schema rng :=
  validationSchema rng JSON_parse randomByteString addressRegexp js_hostname
    parseLorawanMacVersion.
Let top (n : nat) (e : bool) (version : value) : schema rng :=
  top_schema JSON_parse randomByteString addressRegexp js_hostname
    parseLorawanMacVersion n e version.

Ltac field_is H b :=
  match type of H with
  | (if ?c then _ else _) => change c with b in H; cbv iota in H
  end.

(** What the cast makes of a boolean field with a default: a boolean. *)
Lemma boolean_default_cast (d : bool) (ctx : context) (old : value) (r : rng)
    (new : value) (r' : rng) :
  cast true (boolean_ |> default (DefaultValue (VBool d))) ctx old r
  = Normal (new, r') ->
  (exists b, new = VBool b) /\ (old = VUndef -> new = VBool d)
  /\ (forall b, old = VBool b -> new = VBool b).
Proof.
  intros H.
  destruct old as [| | b | s | props];
    try (cbv in H; try discriminate H; injection H as <- <-;
         repeat split; try discriminate; eauto; congruence).
  unfold default, boolean_, with_mods, no_mods, cast, mixed_cast in H.
  cbn [is_undefined transforms fold_left _default] in H.
  destruct (boolean_coerce_str s) as [E | [E | E]]; rewrite E in H;
    cbv in H; try discriminate H; injection H as <- <-;
    repeat split; try discriminate; eauto.
Qed.

(** X1. [_external_js] mirrors the context: whatever the device holds under
    that name, a cast that returns has [_external_js] equal to the
    [externalJs] of the context. *)
Theorem external_js_mirrors_context (e : bool) (version : value)
    (props : list (string * value)) (r : rng) (out : value) (r' : rng) :
  cast true sch {| Yup.externalJs := VBool e; lorawanVersion := version |}
       (VObj props) r = Normal (out, r') ->
  get out "_external_js" = VBool e.
Proof.
  intros H.
  destruct (cast_top_field JSON_parse randomByteString addressRegexp
              js_hostname parseLorawanMacVersion true 0 "_external_js" e
              version props r out r' eq_refl H) as [_ Hf].
  destruct e.
  - field_is Hf false. destruct Hf as (q1 & new & q2 & Hcast & ->).
    destruct (get (VObj props) "_external_js"); cbv in Hcast;
      injection Hcast as <- <-; reflexivity.
  - field_is Hf false. destruct Hf as (q1 & new & q2 & Hcast & ->).
    destruct (get (VObj props) "_external_js"); cbv in Hcast;
      injection Hcast as <- <-; reflexivity.
Qed.


(** X2. [resets_join_nonces] is kept exactly for the versions parsed to at
    least 110: there the cast has a boolean under that name, [false] when
    the device has none and the device's own boolean otherwise; for any
    other version the cast has no such property. *)
Theorem resets_join_nonces_by_version (e : bool) (version : value)
    (props : list (string * value)) (r : rng) (out : value) (r' : rng) :
  cast true sch {| Yup.externalJs := VBool e; lorawanVersion := version |}
       (VObj props) r = Normal (out, r') ->
  if ge (parseLorawanMacVersion version) 110
  then (exists b, get out "resets_join_nonces" = VBool b)
       /\ (get (VObj props) "resets_join_nonces" = VUndef ->
           get out "resets_join_nonces" = VBool false)
       /\ (forall b, get (VObj props) "resets_join_nonces" = VBool b ->
                     get out "resets_join_nonces" = VBool b)
  else has out "resets_join_nonces" = false.
Proof.
  intros H.
  destruct (cast_top_field JSON_parse randomByteString addressRegexp
              js_hostname parseLorawanMacVersion true 1 "resets_join_nonces"
              e version props r out r' eq_refl H) as [_ Hf].
  unfold top_schema in Hf.
  cbn [top_field nth snd fields_of validationSchema object_ shape app rev
       sortFields resolve when_fn lorawanVersion] in Hf.
  destruct (ge (parseLorawanMacVersion version) 110).
  - field_is Hf false. destruct Hf as (q1 & new & q2 & Hcast & ->).
    exact (boolean_default_cast false _ _ _ _ _ Hcast).
  - field_is Hf true. exact Hf.
Qed.


Let rootKeys_ : bool -> bool -> schema rng :=
  rootKeys JSON_parse randomByteString.
Let m0 : mods rng := no_mods (object_coerce JSON_parse).

(** The [root_keys] of a cast form value are the cast of the device's
    [root_keys] by the schema the [when] resolves to. *)
Lemma cast_root_keys (assert e : bool) (version : value)
    (props : list (string * value)) (r : rng) (out : value) (r' : rng) :
  let ctx := {| Yup.externalJs := VBool e; lorawanVersion := version |} in
  cast assert sch ctx (VObj props) r = Normal (out, r') ->
  exists q1 q2,
    cast assert (rootKeys_ e (lt (parseLorawanMacVersion version) 110)) ctx
         (get (VObj props) "root_keys") q1
    = Normal (get out "root_keys", q2).
Proof.
  intros ctx H.
  destruct (cast_top_field JSON_parse randomByteString addressRegexp
              js_hostname parseLorawanMacVersion assert 2 "root_keys" e
              version props r out r' eq_refl H) as [_ Hf].
  unfold top_schema in Hf.
  change (top_field JSON_parse randomByteString addressRegexp js_hostname
            parseLorawanMacVersion 2)
    with (rootKeysField JSON_parse randomByteString addressRegexp js_hostname
            parseLorawanMacVersion) in Hf.
  rewrite rootKeysField_resolve in Hf.
  replace (stripped (rootKeys JSON_parse randomByteString e
                       (lt (parseLorawanMacVersion version) 110)))
    with false in Hf
    by (destruct e, (lt (parseLorawanMacVersion version) 110); reflexivity).
  destruct Hf as (q1 & new & q2 & Hcast & ->). now exists q1, q2.
Qed.

Lemma rootKeys_eq (e b : bool) :
  rootKeys_ e b = SObject m0 (fields_of (rootKeys_ e b)).
Proof. destruct e, b; reflexivity. Qed.

(** X3. For a version parsed below 110, whether the join server is external
    or not, [root_keys.nwk_key] reads [undefined] in the cast; when the
    device has [root_keys], the [root_keys] of the cast has no property
    [nwk_key]; when the device has none, the [root_keys] of the cast is the
    default of the schema, which holds [nwk_key] as a property, left
    [undefined]. *)
Theorem nwk_key_stripped_below_110 (e : bool) (version : value)
    (props : list (string * value)) (r : rng) (out : value) (r' : rng) :
  lt (parseLorawanMacVersion version) 110 = true ->
  cast true sch {| Yup.externalJs := VBool e; lorawanVersion := version |}
       (VObj props) r = Normal (out, r') ->
  get (get out "root_keys") "nwk_key" = VUndef
  /\ (get (VObj props) "root_keys" <> VUndef ->
      has (get out "root_keys") "nwk_key" = false)
  /\ (get (VObj props) "root_keys" = VUndef ->
      has (get out "root_keys") "nwk_key" = true).
Proof.
  intros Hlt H.
  destruct (cast_root_keys true e version props r out r' H)
    as (q1 & q2 & Hcast).
  rewrite Hlt, rootKeys_eq in Hcast.
  set (new := get out "root_keys") in *. clearbody new.
  destruct (cast_object_cases JSON_parse _ _ _ _ _ _ Hcast)
    as [[Hu Hd] | (Hne & rk & Hm & _)].
  - assert (E : new = VObj [("app_key", VUndef); ("nwk_key", VUndef)])
      by (destruct e; cbv in Hd; now injection Hd as <- _).
    subst new. split; [reflexivity |]. split; [intros Hrk; now exfalso |].
    reflexivity.
  - assert (Hin : In ("nwk_key", strippedObject JSON_parse)
                     (fields_of (rootKeys_ e true)))
      by (destruct e; simpl; auto).
    pose proof (cast_object_field true _ m0 (fields_of (rootKeys_ e true))
                  _ rk _ _ _ _ "nwk_key" (strippedObject JSON_parse) Hm
                  (rootKeys_nodup JSON_parse randomByteString e true)
                  Hcast Hin) as [_ Hf].
    field_is Hf true. split; [now apply has_false_get |].
    split; [intros _; exact Hf | intros Hrk; now exfalso].
Qed.

(** X4. For a version parsed below 110 and [externalJs = false], the cast of
    a device whose [root_keys] is an object without [app_key] has
    [root_keys.app_key.key], a string drawn from the generator. *)
Theorem app_key_generated_below_110 (version : value)
    (props rk : list (string * value)) (r : rng) (out : value) (r' : rng) :
  lt (parseLorawanMacVersion version) 110 = true ->
  get (VObj props) "root_keys" = VObj rk ->
  get (VObj rk) "app_key" = VUndef ->
  cast true sch {| Yup.externalJs := VBool false; lorawanVersion := version |}
       (VObj props) r = Normal (out, r') ->
  exists q, get (get (get out "root_keys") "app_key") "key"
            = VStr (fst (randomByteString 32 q)).
Proof.
  intros Hlt Hrk Happ H.
  destruct (cast_root_keys true false version props r out r' H)
    as (q1 & q2 & Hcast).
  rewrite Hlt, Hrk in Hcast.
  pose proof (cast_object_field true _ m0 (fields_of (rootKeys_ false true))
                (VObj rk) rk q1 q1 _ q2 "app_key"
                (keyLazy JSON_parse randomByteString) eq_refl
                (rootKeys_nodup JSON_parse randomByteString false true)
                Hcast (or_introl eq_refl)) as [_ Hf].
  field_is Hf false. destruct Hf as (a1 & ak & a2 & Hacast & Hget).
  cbn [resolve keyLazy] in Hacast. rewrite Happ in Hacast.
  destruct (keyObject_key _ _ _ _ _ _ _ Hacast) as (k & Hk & Ek).
  exists a1. rewrite Hget, Hk, (Ek eq_refl). reflexivity.
Qed.

(** X5. Casting twice is casting once: under any [externalJs] flag and any
    version, the cast of a device that has [root_keys] is returned unchanged
    by a second cast under the same context, whatever the state of the
    generator, and the generator is not drawn from. *)
Theorem cast_twice (e : bool) (version : value)
    (props : list (string * value)) (r : rng) (out : value) (r' : rng) :
  get (VObj props) "root_keys" <> VUndef ->
  cast true sch {| Yup.externalJs := VBool e; lorawanVersion := version |}
       (VObj props) r = Normal (out, r') ->
  forall q,
    cast true sch {| Yup.externalJs := VBool e; lorawanVersion := version |}
         out q = Normal (out, q).
Proof.
  intros Hrk H.
  apply (cast_object_again true _ m0 (fields_of sch) (VObj props) props r r
           out r'); trivial.
  - apply sch_nodup.
  - intros k f Hin.
    apply (top_fields_stable JSON_parse randomByteString addressRegexp
             js_hostname parseLorawanMacVersion); auto.
Qed.

Lemma unknown_props_keep (fs : list (string * field rng))
    (props : list (string * value)) (k : string) :
  ~ In k (map fst fs) -> lookup k (unknown_props fs props) = lookup k props.
Proof.
  intros Hk. unfold unknown_props.
  induction props as [| [k' x] props IH]; [reflexivity |]. simpl.
  destruct (mem k' (map fst fs)) eqn:Hmem; simpl.
  - destruct (String.eqb_spec k k') as [-> | _]; [| exact IH].
    apply mem_true_iff in Hmem. contradiction.
  - now rewrite IH.
Qed.

(** X6. The cast carries over what it has no rule for: a property of the
    device that is none of the five fields of the schema is in the output
    with the value it has in the device. *)
Theorem cast_keeps_other_properties (assert : bool) (ctx : context)
    (props : list (string * value)) (r : rng) (out : value) (r' : rng)
    (k : string) :
  ~ In k ["join_server_address"; "net_id"; "root_keys";
          "resets_join_nonces"; "_external_js"] ->
  cast assert sch ctx (VObj props) r = Normal (out, r') ->
  get out k = get (VObj props) k.
Proof.
  intros Hk H.
  assert (Hk' : ~ In k (map fst (fields_of sch))).
  { intros Hin. apply Hk. simpl in Hin |- *. tauto. }
  change sch with (SObject m0 (fields_of sch)) in H.
  rewrite cast_object_eq in H.
  change (mixed_cast m0 (VObj props) r) with (VObj props, r) in H.
  cbv iota beta in H.
  destruct (cast_fields assert ctx (VObj props) (fields_of sch) [] false r)
    as [[[acc changed] r3] |] eqn:Hpass; [| discriminate H].
  injection H as <- <-.
  apply cast_fields_first in Hpass as (_ & added & E & Hout & _);
    [| apply sch_nodup].
  simpl in E. subst acc. destruct changed; [| reflexivity].
  simpl. now rewrite lookup_app, (Hout k Hk'), (unknown_props_keep _ _ _ Hk').
Qed.

(** The errors reported below [root_keys] are those of the [root_keys] of
    the form value. *)
Lemma root_keys_errors_at (p : string) (e : bool) (version : value)
    (props : list (string * value)) :
  ~ In p ["join_server_address"; "net_id"; "resets_join_nonces";
          "_external_js"] ->
  let ctx := {| Yup.externalJs := VBool e; lorawanVersion := version |} in
  filter (fun err => String.eqb (path err) p)
         (errors_of sch ctx "" (VObj props)) =
  filter (fun err => String.eqb (path err) p)
         (errors_of (rootKeys_ e (lt (parseLorawanMacVersion version) 110))
                    ctx "root_keys" (get (VObj props) "root_keys")).
Proof.
  intros Hp ctx.
  pose proof (top_errors JSON_parse randomByteString addressRegexp
                js_hostname parseLorawanMacVersion e version props) as Ht.
  cbv zeta in Ht. fold ctx in Ht. unfold sch. rewrite Ht. clear Ht.
  rewrite !filter_app.
  assert (Hmixed : forall n k,
             n <> 2 -> n < 5 -> k <> p ->
             filter (fun err => String.eqb (path err) p)
               (errors_of (top n e version) ctx k (get (VObj props) k)) = []).
  { intros n k Hn2 Hn5 Hk. apply filter_path_none. intros err Hin E.
    eapply errors_of_mixed_path in Hin;
      [| now apply top_schema_mixed]. congruence. }
  unfold top in Hmixed.
  rewrite (Hmixed 4), (Hmixed 3), (Hmixed 1), (Hmixed 0);
    try lia; try (intros E; apply Hp; rewrite <- E; simpl; tauto).
  simpl. now rewrite app_nil_r.
Qed.

(** X7. Under [externalJs = false] the validation checks the length of a
    root key: for a device whose [root_keys.app_key.key] is a string, the
    error [validate32] is reported at [root_keys.app_key.key] exactly when
    the string is not 32 characters long. *)
Theorem app_key_length_validated (version : value)
    (props rk ak : list (string * value)) (s : string) (r : rng) :
  get (VObj props) "root_keys" = VObj rk ->
  get (VObj rk) "app_key" = VObj ak ->
  get (VObj ak) "key" = VStr s ->
  errors_at "root_keys.app_key.key"
    (validate sch
       {| Yup.externalJs := VBool false; lorawanVersion := version |}
       (VObj props) r)
  = if Nat.eqb (String.length s) 32 then []
    else [{| path := "root_keys.app_key.key"; message := validate32 |}].
Proof.
  intros Hrk Hak Hkey.
  set (ctx := {| Yup.externalJs := VBool false; lorawanVersion := version |}).
  destruct (cast_false_total sch ctx (VObj props) r) as [[out r'] H].
  rewrite (errors_at_validate _ _ _ _ _ _ _ H).
  destruct (cast_object_obj ctx false m0 (fields_of sch) (VObj props) props
              r r out r' eq_refl H) as [p Hout].
  destruct (cast_root_keys false false version props r out r' H)
    as (q1 & q2 & Hcast).
  rewrite Hout in *. clear Hout. unfold ctx in H |- *.
  rewrite (root_keys_errors_at "root_keys.app_key.key" false version p)
    by (simpl; intuition discriminate).
  fold ctx. rewrite Hrk in Hcast.
  set (b := lt (parseLorawanMacVersion version) 110) in *. clearbody b.
  (* the cast app_key *)
  assert (Hin : In ("app_key", keyLazy JSON_parse randomByteString)
                   (fields_of (rootKeys_ false b)))
    by (destruct b; simpl; auto).
  rewrite rootKeys_eq in Hcast.
  destruct (cast_object_obj ctx false m0 _ (VObj rk) rk q1 q1 _ q2 eq_refl
              Hcast) as [rk' Hrk'].
  pose proof (cast_object_field false ctx m0 (fields_of (rootKeys_ false b))
                (VObj rk) rk q1 q1 _ q2 "app_key"
                (keyLazy JSON_parse randomByteString) eq_refl
                (rootKeys_nodup JSON_parse randomByteString false b)
                Hcast Hin) as [_ Hf].
  field_is Hf false. destruct Hf as (a1 & ak' & a2 & Hacast & Hget).
  cbn [resolve keyLazy] in Hacast. rewrite Hak in Hacast.
  destruct (cast_object_obj ctx false m0 _ (VObj ak) ak a1 a1 _ a2 eq_refl
              Hacast) as [ak'' Hak''].
  pose proof (cast_object_field false ctx m0
                (fields_of (keyObject JSON_parse randomByteString))
                (VObj ak) ak a1 a1 _ a2 "key"
                (FSchema (keyString randomByteString)) eq_refl
                (keyObject_nodup JSON_parse randomByteString)
                Hacast (or_introl eq_refl)) as [_ Hk].
  field_is Hk false. destruct Hk as (k1 & new & k2 & Hkcast & Hkget).
  cbn [resolve] in Hkcast. rewrite Hkey in Hkcast.
  injection Hkcast as <- <-.
  rewrite Hrk' in *. rewrite Hak'' in *.
  (* the errors *)
  rewrite rootKeys_eq, errors_of_object by reflexivity.
  assert (Eapp : errors_of (keyObject JSON_parse randomByteString) ctx
                   "root_keys.app_key" (VObj ak'')
                 = if Nat.eqb (String.length s) 32 then []
                   else [{| path := "root_keys.app_key.key";
                            message := validate32 |}]).
  { unfold keyObject, object_, shape. rewrite errors_of_object by reflexivity.
    cbn [flat_map fst snd resolve app rev sortFields join_path String.eqb
         Ascii.eqb Bool.eqb String.append].
    rewrite app_nil_r, Hkget. cbn. now destruct (Nat.eqb _ 32). }
  assert (Enwk : forall f, f = strippedObject JSON_parse
                           \/ f = keyLazy JSON_parse randomByteString ->
                 filter (fun err => String.eqb (path err) "root_keys.app_key.key")
                   (errors_of (resolve f ctx (get (VObj rk') "nwk_key")) ctx
                      "root_keys.nwk_key" (get (VObj rk') "nwk_key")) = []).
  { intros f Hf. apply filter_path_none. intros err Hin' E.
    destruct Hf as [-> | ->]; cbn [resolve strippedObject keyLazy] in Hin'.
    - apply strippedObject_error_paths in Hin'. rewrite Hin' in E.
      discriminate E.
    - apply keyObject_error_paths in Hin' as [Hin' | Hin'];
        rewrite Hin' in E; discriminate E. }
  destruct b; cbn [fields_of rootKeys_ rootKeys object_ shape app flat_map
                   fst snd rev sortFields join_path String.eqb Ascii.eqb
                   Bool.eqb String.append];
    rewrite app_nil_r, filter_app, Enwk by auto;
    cbn [resolve keyLazy app]; rewrite Hget, Eapp;
    destruct (Nat.eqb _ 32); reflexivity.
Qed.

(** *** Casting a cast under the other flag *)

Lemma cast_fields_returns (assert : bool) (ctx : context) (v : value)
    (fs : list (string * field rng)) :
  (forall k f, In (k, f) fs ->
     stripped (resolve f ctx (get v k)) = true
     \/ forall q, exists res,
          cast assert (resolve f ctx (get v k)) ctx (get v k) q = Normal res) ->
  forall acc changed q,
    exists res, cast_fields assert ctx v fs acc changed q = Normal res.
Proof.
  induction fs as [| [k f] fs IH]; intros Hok acc changed q.
  - eexists. reflexivity.
  - rewrite cast_fields_cons. cbv zeta.
    destruct (Hok k f (or_introl eq_refl)) as [Hs | Hc].
    + rewrite Hs. apply IH. intros k' f' Hin. apply Hok. now right.
    + destruct (stripped _).
      * apply IH. intros k' f' Hin. apply Hok. now right.
      * destruct (Hc q) as [[new q'] ->]. apply IH.
        intros k' f' Hin. apply Hok. now right.
Qed.

Lemma cast_object_returns (assert : bool) (ctx : context)
    (fs : list (string * field rng)) (p : list (string * value)) :
  (forall k f, In (k, f) fs ->
     stripped (resolve f ctx (get (VObj p) k)) = true
     \/ forall q, exists res,
          cast assert (resolve f ctx (get (VObj p) k)) ctx (get (VObj p) k) q
          = Normal res) ->
  forall q, exists res, cast assert (SObject m0 fs) ctx (VObj p) q = Normal res.
Proof.
  intros Hok q. rewrite cast_object_eq.
  change (mixed_cast m0 (VObj p) q) with (VObj p, q). cbv iota beta.
  destruct (cast_fields_returns assert ctx (VObj p) fs Hok [] false q)
    as [[[acc changed] q'] ->].
  eexists. reflexivity.
Qed.

Lemma keyObject_context (ctx ctx' : context) (v : value) (q : rng) :
  cast true (keyObject JSON_parse randomByteString) ctx v q
  = cast true (keyObject JSON_parse randomByteString) ctx' v q.
Proof. reflexivity. Qed.

(** A key object that has been cast, or is not there, can be cast. *)
Lemma keyObject_recast (ctx ctx' : context) (old : value) (r : rng)
    (new : value) (r' : rng) :
  cast true (keyObject JSON_parse randomByteString) ctx old r
  = Normal (new, r') ->
  forall q, exists res,
    cast true (keyObject JSON_parse randomByteString) ctx' new q = Normal res.
Proof.
  intros H q. rewrite (keyObject_context ctx' ctx).
  destruct (keyObject_again _ _ _ _ _ _ _ H) as [_ Ha].
  eexists. apply Ha.
Qed.

Lemma keyObject_undefined (ctx : context) (q : rng) :
  exists res,
    cast true (keyObject JSON_parse randomByteString) ctx VUndef q = Normal res.
Proof. eexists. reflexivity. Qed.

(** The [root_keys] cast under one flag can be cast under the other. *)
Lemma rootKeys_recast (ctx ctx' : context) (e e' b : bool) (old : value)
    (r : rng) (new : value) (r' : rng) :
  cast true (rootKeys_ e b) ctx old r = Normal (new, r') ->
  forall q, exists res, cast true (rootKeys_ e' b) ctx' new q = Normal res.
Proof.
  intros H q. rewrite rootKeys_eq in H. rewrite (rootKeys_eq e' b).
  assert (Hfield : forall (k : string) (f' : field rng) (x : value),
             (x = VUndef
              \/ exists y r1 r2,
                   cast true (keyObject JSON_parse randomByteString) ctx y r1
                   = Normal (x, r2)) ->
             In (k, f') (fields_of (rootKeys_ e' b)) ->
             stripped (resolve f' ctx' x) = true
             \/ forall q, exists res,
                  cast true (resolve f' ctx' x) ctx' x q = Normal res).
  { intros k f' x Hx Hin.
    assert (Hf' : f' = strippedObject JSON_parse
                  \/ f' = keyLazy JSON_parse randomByteString).
    { destruct e', b; simpl in Hin;
        destruct Hin as [E | [E | []]]; injection E as _ <-; auto. }
    destruct Hf' as [-> | ->]; [left; reflexivity | right].
    cbn [resolve keyLazy]. intros q'.
    destruct Hx as [-> | (y & r1 & r2 & Hy)].
    - apply keyObject_undefined.
    - exact (keyObject_recast ctx ctx' y r1 x r2 Hy q'). }
  destruct (cast_object_cases JSON_parse _ _ _ _ _ _ H)
    as [[-> Hd] | (_ & rk & Hm & _)].
  - assert (E : new = VObj [("app_key", VUndef); ("nwk_key", VUndef)])
      by (destruct e, b; cbv in Hd; congruence).
    subst new. apply cast_object_returns. intros k f' Hin.
    apply (Hfield k f'); [| exact Hin]. left.
    destruct e', b; simpl in Hin;
      destruct Hin as [E | [E | []]]; injection E as <- _; reflexivity.
  - destruct (cast_object_obj ctx true m0 _ _ _ _ _ _ _ Hm H) as [p ->].
    apply cast_object_returns. intros k f' Hin.
    apply (Hfield k f'); [| exact Hin].
    assert (Hk : k = "app_key" \/ k = "nwk_key").
    { destruct e', b; simpl in Hin;
        destruct Hin as [E | [E | []]]; injection E as <- _; auto. }
    assert (Hex : exists f, In (k, f) (fields_of (rootKeys_ e b))
                            /\ (f = strippedObject JSON_parse
                                \/ f = keyLazy JSON_parse randomByteString)).
    { destruct Hk as [-> | ->]; destruct e, b; simpl; eauto 10. }
    destruct Hex as (f & Hinf & Hf).
    pose proof (cast_object_field true ctx m0 (fields_of (rootKeys_ e b))
                  old rk r r (VObj p) r' k f Hm
                  (rootKeys_nodup JSON_parse randomByteString e b) H Hinf)
      as [_ Hres].
    destruct Hf as [-> | ->].
    + field_is Hres true. left. now apply has_false_get.
    + field_is Hres false. destruct Hres as (q1 & x & q2 & Hc & ->).
      right. exists (get (VObj rk) k), q1, q2. exact Hc.
Qed.

(** What was cast under one [externalJs] flag can be cast under the other:
    the cast of a cast form value, under the same version and either flag,
    returns and does not throw. *)
Lemma cast_under_other_flag (e0 e : bool) (version : value)
    (props : list (string * value)) (r : rng) (out : value) (r' : rng) :
  cast true sch {| Yup.externalJs := VBool e0; lorawanVersion := version |}
       (VObj props) r = Normal (out, r') ->
  forall q, exists res,
    cast true sch {| Yup.externalJs := VBool e; lorawanVersion := version |}
         out q = Normal res.
Proof.
  intros H.
  set (ctx0 := {| Yup.externalJs := VBool e0; lorawanVersion := version |}) in *.
  set (ctx := {| Yup.externalJs := VBool e; lorawanVersion := version |}).
  pose proof (fun n k Hn =>
                cast_top_field JSON_parse randomByteString addressRegexp
                  js_hostname parseLorawanMacVersion true n k e0 version
                  props r out r' Hn H) as Hfirst.
  destruct (cast_root_keys true e0 version props r out r' H)
    as (k1 & k2 & Hrk).
  destruct (cast_object_obj ctx0 true m0 (fields_of sch) (VObj props) props
              r r out r' eq_refl H) as [p ->].
  change sch with (SObject m0 (fields_of sch)).
  apply cast_object_returns. intros k f Hin. simpl in Hin.
  destruct Hin as [E | [E | [E | [E | [E | []]]]]]; injection E as <- <-.
  - (* _external_js *)
    right. intros q.
    destruct e; destruct (get (VObj p) "_external_js");
      eexists; cbv; reflexivity.
  - (* resets_join_nonces *)
    destruct (Hfirst 1 "resets_join_nonces" eq_refl) as [_ Hf].
    unfold top_schema in Hf.
    cbn [top_field nth snd fields_of validationSchema object_ shape app rev
         sortFields resolve when_fn lorawanVersion] in Hf.
    cbn [resolve when_fn lorawanVersion ctx].
    destruct (ge (parseLorawanMacVersion version) 110);
      [right | left; reflexivity].
    field_is Hf false. destruct Hf as (q1 & new & q2 & Hcast & ->).
    destruct (boolean_default_cast false _ _ _ _ _ Hcast) as [[b ->] _].
    intros q. eexists. reflexivity.
  - (* root_keys *)
    right. intros q.
    change (resolve _ ctx (get (VObj p) "root_keys"))
      with (resolve (rootKeysField JSON_parse randomByteString addressRegexp
                       js_hostname parseLorawanMacVersion)
                    ctx (get (VObj p) "root_keys")).
    unfold ctx at 1. rewrite rootKeysField_resolve.
    exact (rootKeys_recast ctx0 ctx e0 e _ _ _ _ _ Hrk q).
  - (* net_id *)
    destruct e; [left; reflexivity | right]. intros q.
    destruct (get (VObj p) "net_id"); eexists; cbv; reflexivity.
  - (* join_server_address *)
    destruct e; [left; reflexivity | right]. intros q.
    destruct (Hfirst 4 "join_server_address" eq_refl) as [_ Hf].
    destruct e0.
    + field_is Hf true. rewrite (has_false_get _ _ Hf).
      eexists. cbv. reflexivity.
    + field_is Hf false. destruct Hf as (q1 & new & q2 & Hcast & ->).
      destruct (get (VObj props) "join_server_address"); cbv in Hcast;
        try discriminate Hcast; injection Hcast as <- <-;
        eexists; cbv; reflexivity.
Qed.

(** *** What an external join server strips *)

(** C1 (amended). Under a context with [externalJs = true], whatever the
    version, a cast of a device object that returns is an object without the
    properties [join_server_address] and [net_id]; when the device has
    [root_keys], the [root_keys] of the output is an object without the
    properties [nwk_key] and [app_key]; when the device has none, the
    [root_keys] of the output is the default of the schema, which holds
    [app_key] and [nwk_key] as properties, both [undefined].  The cast
    returns for every device whose [root_keys] is absent or an object and
    whose [resets_join_nonces] is absent or a boolean. *)
Theorem cast_external_js_strips (version : value)
    (props : list (string * value)) (r : rng) :
  let ctx := {| Yup.externalJs := VBool true; lorawanVersion := version |} in
  (forall out r',
      cast true sch ctx (VObj props) r = Normal (out, r') ->
      (exists ps, out = VObj ps)
      /\ has out "join_server_address" = false
      /\ has out "net_id" = false
      /\ (get (VObj props) "root_keys" <> VUndef ->
          (exists ps, get out "root_keys" = VObj ps)
          /\ has (get out "root_keys") "nwk_key" = false
          /\ has (get out "root_keys") "app_key" = false)
      /\ (get (VObj props) "root_keys" = VUndef ->
          get out "root_keys" = VObj [("app_key", VUndef); ("nwk_key", VUndef)]))
  /\ ((get (VObj props) "root_keys" = VUndef
       \/ exists rk, get (VObj props) "root_keys" = VObj rk) ->
      (get (VObj props) "resets_join_nonces" = VUndef
       \/ exists b, get (VObj props) "resets_join_nonces" = VBool b) ->
      exists out r', cast true sch ctx (VObj props) r = Normal (out, r')).
Proof.
  intros ctx. split.
  - intros out r' H.
    destruct (cast_top_field JSON_parse randomByteString addressRegexp
                js_hostname parseLorawanMacVersion true 4
                "join_server_address" true version props r out r' eq_refl H)
      as [Hobj Hjsa].
    destruct (cast_top_field JSON_parse randomByteString addressRegexp
                js_hostname parseLorawanMacVersion true 3 "net_id" true
                version props r out r' eq_refl H) as [_ Hnet].
    field_is Hjsa true. field_is Hnet true.
    pose proof (cast_root_keys_at JSON_parse randomByteString addressRegexp
                  js_hostname parseLorawanMacVersion true true version props
                  r out r' H) as Hrk.
    cbv zeta in Hrk. fold ctx in Hrk. fold rootKeys_ in Hrk.
    set (b := lt (parseLorawanMacVersion version) 110) in *. clearbody b.
    set (new := get out "root_keys") in *. clearbody new.
    repeat (split; [assumption |]). split.
    + intros Hne. rewrite rootKeys_eq in Hrk.
      destruct (cast_object_cases JSON_parse _ _ _ _ _ _ Hrk)
        as [[E _] | (_ & rk & Hm & _)]; [contradiction |].
      assert (Hin : forall k, k = "nwk_key" \/ k = "app_key" ->
                In (k, strippedObject JSON_parse) (fields_of (rootKeys_ true b)))
        by (intros k [-> | ->]; destruct b; simpl; auto).
      pose proof (fun k Hk =>
                    cast_object_field true ctx m0 (fields_of (rootKeys_ true b))
                      _ rk _ _ _ _ k (strippedObject JSON_parse) Hm
                      (rootKeys_nodup JSON_parse randomByteString true b)
                      Hrk (Hin k Hk)) as Hf.
      destruct (Hf "nwk_key" (or_introl eq_refl)) as [Hp Hnwk].
      destruct (Hf "app_key" (or_intror eq_refl)) as [_ Happ].
      field_is Hnwk true. field_is Happ true. auto.
    + intros Hu. rewrite Hu in Hrk.
      destruct b; cbv in Hrk; now injection Hrk as <- _.
  - intros Hrk Hrjn.
    assert (Hret : exists res, cast true sch ctx (VObj props) r = Normal res).
    2: { destruct Hret as [[out r'] Hret]. now exists out, r'. }
    change sch with (SObject m0 (fields_of sch)).
    apply cast_object_returns. intros k f Hin. simpl in Hin.
    destruct Hin as [E | [E | [E | [E | [E | []]]]]]; injection E as <- <-.
    + right. intros q.
      destruct (get (VObj props) "_external_js"); eexists; cbv; reflexivity.
    + cbn [resolve when_fn lorawanVersion ctx].
      destruct (ge (parseLorawanMacVersion version) 110);
        [right | left; reflexivity].
      intros q. destruct Hrjn as [-> | [b ->]]; eexists; reflexivity.
    + right. intros q.
      change (resolve _ ctx (get (VObj props) "root_keys"))
        with (resolve (rootKeysField JSON_parse randomByteString addressRegexp
                         js_hostname parseLorawanMacVersion)
                      ctx (get (VObj props) "root_keys")).
      unfold ctx at 1. rewrite rootKeysField_resolve. fold rootKeys_.
      set (b := lt (parseLorawanMacVersion version) 110). clearbody b.
      destruct Hrk as [-> | [rk ->]].
      * destruct b; eexists; reflexivity.
      * rewrite rootKeys_eq. apply cast_object_returns.
        intros k f Hin. left.
        destruct b; simpl in Hin; destruct Hin as [E | [E | []]];
          injection E as <- <-; reflexivity.
    + left. reflexivity.
    + left. reflexivity.
Qed.

End SchemaRules.

(** ** The fields the form renders *)

Module View.

(** The messages the fields show. *)
Inductive message : Type :=
| leaveBlankPlaceholder
| unexposed
| provisionedOnExternalJoinServer
| external
| addressPlaceholder
| resetWarning.

(** The props of a [Form.Field] that depend on the state. *)
Record field_props : Type := FieldProps {
  name : string;
  placeholder : option message;
  disabled : bool;
  required : bool;
  warning : option message
}.

Section Render.

Variable parseLorawanMacVersion : value -> number.
Variable device : value.

(** [appKeyPlaceholder] and [nwkKeyPlaceholder]: the assignments of the
    render, in their order. *)
Definition keyPlaceholder (externalJs keyHidden : bool) : message :=
  if externalJs then provisionedOnExternalJoinServer
  else if keyHidden then unexposed
  else leaveBlankPlaceholder.

(** The fields of one render, top to bottom, for the two flags of the
    component's state. *)
Definition render (externalJs : bool) (resetsJoinNonces : value)
    : completion (list field_props) :=
  let isNewLorawanVersion :=
    ge (parseLorawanMacVersion (get device "lorawan_version")) 110 in
  match isNwkKeyHidden device with
  | TypeError => TypeError
  | Normal nwkKeyHidden =>
      match isAppKeyHidden device with
      | TypeError => TypeError
      | Normal appKeyHidden =>
          let appKeyPlaceholder := keyPlaceholder externalJs appKeyHidden in
          let nwkKeyPlaceholder := keyPlaceholder externalJs nwkKeyHidden in
          Normal
            ([ {| name := "_external_js"; placeholder := None;
                  disabled := false; required := false; warning := None |};
               {| name := "join_server_address";
                  placeholder := Some (if externalJs then external
                                       else addressPlaceholder);
                  disabled := externalJs; required := true;
                  warning := None |};
               {| name := "net_id"; placeholder := None;
                  disabled := externalJs; required := false;
                  warning := None |};
               {| name := "root_keys.app_key.key";
                  placeholder := Some appKeyPlaceholder;
                  disabled := externalJs || appKeyHidden; required := true;
                  warning := None |} ]
             ++ (if isNewLorawanVersion
                 then [ {| name := "root_keys.nwk_key.key";
                           placeholder := Some nwkKeyPlaceholder;
                           disabled := externalJs || nwkKeyHidden;
                           required := true; warning := None |} ]
                 else [])
             ++ (if isNewLorawanVersion
                 then [ {| name := "resets_join_nonces"; placeholder := None;
                           disabled := externalJs; required := false;
                           warning := if truthy resetsJoinNonces
                                      then Some resetWarning else None |} ]
                 else []))
      end
  end.

(** X8. With an external join server nothing but the checkbox that says so
    can be edited: every other field of the render is disabled. *)
Theorem render_external_disables (resetsJoinNonces : value)
    (fields : list field_props) (f : field_props) :
  render true resetsJoinNonces = Normal fields ->
  In f fields -> name f <> "_external_js" -> disabled f = true.
Proof.
  unfold render. intros H Hin Hname.
  destruct (isNwkKeyHidden device) as [nwk |]; [| discriminate H].
  destruct (isAppKeyHidden device) as [app |]; [| discriminate H].
  injection H as <-.
  destruct (ge _ 110); simpl in Hin;
    repeat (destruct Hin as [<- | Hin]; [first [reflexivity | now exfalso] |]);
    contradiction.
Qed.

(** X9. A key field invites input exactly when it can take it: in every
    render the placeholder of a key field is "leave blank" if and only if
    the field is enabled, and it is "unexposed" only without an external
    join server. *)
Theorem render_key_placeholder (externalJs : bool) (resetsJoinNonces : value)
    (fields : list field_props) (f : field_props) :
  render externalJs resetsJoinNonces = Normal fields ->
  In f fields ->
  name f = "root_keys.app_key.key" \/ name f = "root_keys.nwk_key.key" ->
  (disabled f = false <-> placeholder f = Some leaveBlankPlaceholder)
  /\ (placeholder f = Some unexposed -> externalJs = false).
Proof.
  unfold render. intros H Hin Hname.
  destruct (isNwkKeyHidden device) as [nwk |]; [| discriminate H].
  destruct (isAppKeyHidden device) as [app |]; [| discriminate H].
  injection H as <-.
  destruct (ge _ 110); simpl in Hin;
    repeat (destruct Hin as [<- | Hin];
            [simpl in Hname |- *;
             first [ destruct Hname as [E | E]; discriminate E
                   | destruct externalJs, nwk, app; simpl;
                     repeat split; congruence ] |]);
    contradiction.
Qed.

End Render.

End View.

(** ** More on the form *)

Section FormRules.

Context {rng : Type}.
Variable JSON_parse : string -> value.
Variable randomByteString : nat -> rng -> string * rng.
Variable addressRegexp : string -> bool.
Variable js_hostname : string.
Variable parseLorawanMacVersion : value -> number.
Variable hasExternalJs : value -> bool.
Variable diff : value -> value -> list string -> value.
Variable device : value.

Let schema_ : schema rng :=
  Form.schema_ JSON_parse randomByteString addressRegexp js_hostname
    parseLorawanMacVersion.
Let context_of : bool -> context := Form.context_of device.
Let mount : rng -> completion (Form.state rng) :=
  Form.mount JSON_parse randomByteString addressRegexp js_hostname
    parseLorawanMacVersion hasExternalJs device.
Let run : Form.state rng -> list Form.event -> Form.state rng :=
  Form.run JSON_parse randomByteString addressRegexp js_hostname
    parseLorawanMacVersion diff device.
Let onFormSubmit : Form.settled -> Form.state rng -> Form.outcome rng :=
  Form.onFormSubmit JSON_parse randomByteString addressRegexp js_hostname
    parseLorawanMacVersion diff device.
Let handleExternalJsChange : bool -> Form.state rng -> Form.outcome rng :=
  Form.handleExternalJsChange JSON_parse randomByteString addressRegexp
    js_hostname parseLorawanMacVersion device.

Ltac top_field_is H b :=
  match type of H with
  | (if ?c then _ else _) => change c with b in H; cbv iota in H
  end.

Lemma cast_sets_external_js (e : bool) (props : list (string * value))
    (r : rng) (out : value) (r' : rng) :
  cast true schema_ (context_of e) (VObj props) r = Normal (out, r') ->
  get out "_external_js" = VBool e.
Proof.
  intros H.
  destruct (cast_top_field JSON_parse randomByteString addressRegexp
              js_hostname parseLorawanMacVersion true 0 "_external_js" e
              _ props r out r' eq_refl H) as [_ Hf].
  destruct e; top_field_is Hf false;
    destruct Hf as (q1 & new & q2 & Hcast & ->);
    destruct (get (VObj props) "_external_js"); cbv in Hcast;
    injection Hcast as <- <-; reflexivity.
Qed.

(** X10. On mount the form starts from the cast of the device under the
    device's own flag: values, baseline and initial values are that cast,
    nothing is submitted, and the [_external_js] the checkbox shows is
    [hasExternalJs(device)], the flag of the component. *)
Theorem mount_state (props : list (string * value)) (r : rng)
    (st0 : Form.state rng) :
  device = VObj props ->
  mount r = Normal st0 ->
  Form.values st0 = Form.initialValues st0
  /\ Form.baseline st0 = Form.initialValues st0
  /\ Form.submitted st0 = []
  /\ Form.externalJs st0 = hasExternalJs device
  /\ get (Form.values st0) "_external_js" = VBool (Form.externalJs st0).
Proof.
  intros Hdev H. unfold mount, Form.mount in H.
  destruct (cast true _ _ device r) as [[vs r0] |] eqn:Hcast;
    [| discriminate H].
  injection H as <-. cbn. repeat split.
  apply (cast_sets_external_js (hasExternalJs device) props r vs r0).
  rewrite <- Hdev. exact Hcast.
Qed.

(** X11. When the checkbox reports the state it is toggled to, the flag of
    the component and the [_external_js] of the form agree after the
    handler. *)
Theorem toggle_flag_and_value_agree (st : Form.state rng)
    (props : list (string * value)) (vs : value) (r' : rng) :
  Form.initialValues st = VObj props ->
  cast true schema_ (context_of (negb (Form.externalJs st)))
       (Form.initialValues st) (Form.gen st) = Normal (vs, r') ->
  let st' := Form.state_of (handleExternalJsChange (negb (Form.externalJs st)) st) in
  get (Form.values st') "_external_js" = VBool (Form.externalJs st').
Proof.
  intros Hinit H. cbv zeta.
  unfold handleExternalJsChange, Form.handleExternalJsChange.
  fold schema_. fold context_of. rewrite H. cbn.
  rewrite Hinit in H. exact (cast_sets_external_js _ _ _ _ _ H).
Qed.

Lemma run_initial (st : Form.state rng) (es : list Form.event) :
  Form.initialValues (run st es) = Form.initialValues st.
Proof.
  revert st. induction es as [| e es IH]; intros st; [reflexivity |].
  cbn [run Form.run fold_left]. unfold run, Form.run in IH. rewrite IH.
  destruct e as [vs | | checked | result]; cbn; trivial.
  - unfold Form.handleExternalJsChange.
    now destruct (cast _ _ _ _ _) as [[vs r] |].
  - unfold Form.onFormSubmit.
    destruct (cast _ _ _ _ _) as [[vs r] |]; [now destruct result | trivial].
Qed.

(** X12. Every submit is compared with the values cast at mount: whatever
    happened to the form since, successful submits included (which reset
    the form's baseline), [onSubmit] receives the difference between the
    initial values of the mount and the cast of the current values. *)
Theorem submit_diffs_against_mount (st0 : Form.state rng)
    (es : list Form.event) (result : Form.settled) (castedValues : value)
    (r' : rng) :
  let st := run st0 es in
  cast true schema_ (context_of (Form.externalJs st)) (Form.values st)
       (Form.gen st) = Normal (castedValues, r') ->
  Form.submitted (run st0 (es ++ [Form.Submit result])) =
  Form.submitted st
  ++ [diff (Form.initialValues st0) castedValues
           ["_external_js"; "_lorawan_version"]].
Proof.
  intros st H. unfold run, Form.run. rewrite fold_left_app.
  fold (Form.run JSON_parse randomByteString addressRegexp js_hostname
          parseLorawanMacVersion diff device st0 es).
  fold run. fold st. cbn [fold_left Form.step].
  unfold Form.onFormSubmit. fold schema_. fold context_of. rewrite H.
  rewrite <- (run_initial st0 es). fold st. now destruct result.
Qed.

(** X13. The cast of a submit is made outside the handler's [try]: when it
    throws, [onSubmit] is not called, the error of the form is not set and
    the form keeps its values; the submit stays pending. *)
Theorem submit_cast_throws (st : Form.state rng) (result : Form.settled) :
  cast true schema_ (context_of (Form.externalJs st)) (Form.values st)
       (Form.gen st) = TypeError ->
  exists st', onFormSubmit result st = Form.Threw st'
              /\ Form.submitted st' = Form.submitted st
              /\ Form.error st' = Form.error st
              /\ Form.values st' = Form.values st
              /\ Form.submitting st' = true.
Proof.
  intros H. unfold onFormSubmit, Form.onFormSubmit.
  fold schema_. fold context_of. rewrite H.
  eexists. split; [reflexivity |]. repeat split.
Qed.




(** X15. Once the form is mounted the checkbox can always be toggled:
    whatever was done to the form, the handler of the external-join-server
    checkbox returns (the cast of the initial values under either flag does
    not throw), with the flag flipped and the values replaced by that
    cast. *)
Theorem toggle_never_throws (props : list (string * value)) (r : rng)
    (st0 : Form.state rng) (es : list Form.event) (checked : bool) :
  device = VObj props ->
  mount r = Normal st0 ->
  let st := run st0 es in
  exists st' vs q,
    handleExternalJsChange checked st = Form.Returned st'
    /\ cast true schema_ (context_of checked) (Form.initialValues st0)
            (Form.gen st) = Normal (vs, q)
    /\ Form.values st' = vs
    /\ Form.externalJs st' = negb (Form.externalJs st).
Proof.
  intros Hdev Hmount st. unfold mount, Form.mount in Hmount.
  destruct (cast true _ _ device r) as [[vs0 r0] |] eqn:Hcast;
    [| discriminate Hmount].
  assert (Hinit0 : Form.initialValues st0 = vs0)
    by (injection Hmount as <-; reflexivity).
  assert (Hinit : Form.initialValues st = vs0)
    by (unfold st; rewrite run_initial; exact Hinit0).
  assert (Hc : cast true schema_ (context_of (hasExternalJs device))
                    (VObj props) r = Normal (vs0, r0))
    by (rewrite <- Hdev; exact Hcast).
  destruct (cast_under_other_flag JSON_parse randomByteString addressRegexp
              js_hostname parseLorawanMacVersion (hasExternalJs device)
              checked _ props r vs0 r0 Hc (Form.gen st)) as [[vs q] Hre].
  change (cast true schema_ (context_of checked) vs0 (Form.gen st)
          = Normal (vs, q)) in Hre.
  unfold handleExternalJsChange, Form.handleExternalJsChange.
  rewrite Hinit, Hinit0. fold schema_. fold context_of.
  rewrite Hre. eexists. exists vs, q. repeat split.
Qed.

(** *** Toggling back *)






End FormRules.

(** X16. The hidden-key predicates answer [true] for an empty key object and
    for nothing else: on a device record, [isNwkKeyHidden] (resp.
    [isAppKeyHidden]) returns [true] if and only if [root_keys.nwk_key]
    (resp. [root_keys.app_key]) is an object without properties. *)
Theorem hidden_key_is_empty_object (key : string)
    (props : list (string * value)) :
  isKeyHidden key (VObj props) = Normal true
  <-> get (get (VObj props) "root_keys") key = VObj [].
Proof.
  unfold isKeyHidden.
  destruct (get (VObj props) "root_keys") as [| | b | s | rk] eqn:Hrk;
    cbn [truthy negb]; try (split; discriminate).
  - destruct b; cbn [get typeof_object negb]; split; discriminate.
  - destruct (String.eqb s ""); cbn [get typeof_object negb negb];
      split; discriminate.
  - destruct (get (VObj rk) key) as [| | b | s | [| kv ps]];
      cbn; split; try discriminate; reflexivity.
Qed.

(** ** The other rules on sample devices *)

(** A device of LoRaWAN 1.0.2 on the console's join server, its key not yet
    set. *)
Definition device_legacy : list (string * value) :=
  [("lorawan_version", VStr "1.0.2"); ("root_keys", VObj [])].

Ltac sample_cast H :=
  match goal with
  | |- match ?c with Normal _ => _ | TypeError => _ end =>
      destruct c as [[? ?] |] eqn:H; [| vm_compute in H; discriminate H]
  end.

Lemma external_js_mirrors_context_witness :
  match cast true Sample.validationSchema (Sample.context_ true "1.1.0")
             (VObj [("_external_js", VBool false)]) 0 with
  | Normal (out, _) => get out "_external_js" = VBool true
  | TypeError => False
  end.
Proof.
  sample_cast H.
  exact (external_js_mirrors_context Sample.JSON_parse
           Sample.randomByteString Sample.addressRegexp Sample.js_hostname
           Sample.parseLorawanMacVersion true (VStr "1.1.0")
           [("_external_js", VBool false)] 0 _ _ H).
Defined.

Lemma resets_join_nonces_by_version_witness :
  match cast true Sample.validationSchema (Sample.context_ false "1.0.2")
             (VObj [("resets_join_nonces", VBool true)]) 0 with
  | Normal (out, _) => has out "resets_join_nonces" = false
  | TypeError => False
  end
  /\ match cast true Sample.validationSchema (Sample.context_ false "1.1.0")
                (VObj [("resets_join_nonces", VBool true)]) 0 with
     | Normal (out, _) => get out "resets_join_nonces" = VBool true
     | TypeError => False
     end.
Proof.
  split; sample_cast H.
  - exact (resets_join_nonces_by_version Sample.JSON_parse
             Sample.randomByteString Sample.addressRegexp Sample.js_hostname
             Sample.parseLorawanMacVersion false (VStr "1.0.2")
             [("resets_join_nonces", VBool true)] 0 _ _ H).
  - exact (proj2 (proj2 (resets_join_nonces_by_version Sample.JSON_parse
                           Sample.randomByteString Sample.addressRegexp
                           Sample.js_hostname Sample.parseLorawanMacVersion
                           false (VStr "1.1.0")
                           [("resets_join_nonces", VBool true)] 0 _ _ H))
                 true eq_refl).
Defined.

Lemma nwk_key_stripped_below_110_witness :
  match cast true Sample.validationSchema (Sample.context_ false "1.0.2")
             (VObj [("root_keys",
                     VObj [("nwk_key", VObj [("key", VStr "00")])])]) 0 with
  | Normal (out, _) =>
      get (get out "root_keys") "nwk_key" = VUndef
      /\ has (get out "root_keys") "nwk_key" = false
  | TypeError => False
  end.
Proof.
  sample_cast H.
  destruct (nwk_key_stripped_below_110 Sample.JSON_parse
              Sample.randomByteString Sample.addressRegexp Sample.js_hostname
              Sample.parseLorawanMacVersion false (VStr "1.0.2") _ 0 _ _
              eq_refl H) as (Hget & Hhas & _).
  split; [exact Hget | apply Hhas; discriminate].
Defined.

Lemma app_key_generated_below_110_witness :
  match cast true Sample.validationSchema (Sample.context_ false "1.0.2")
             (VObj device_legacy) 0 with
  | Normal (out, _) =>
      exists q, get (get (get out "root_keys") "app_key") "key"
                = VStr (fst (Sample.randomByteString 32 q))
  | TypeError => False
  end.
Proof.
  sample_cast H.
  exact (app_key_generated_below_110 Sample.JSON_parse
           Sample.randomByteString Sample.addressRegexp Sample.js_hostname
           Sample.parseLorawanMacVersion (VStr "1.0.2") device_legacy [] 0
           _ _ eq_refl eq_refl eq_refl H).
Defined.

Lemma cast_twice_witness :
  match cast true Sample.validationSchema (Sample.context_ true "1.0.2")
             (VObj device_legacy) 0 with
  | Normal (out, _) =>
      cast true Sample.validationSchema (Sample.context_ true "1.0.2") out 7
      = Normal (out, 7)
  | TypeError => False
  end.
Proof.
  sample_cast H.
  refine (cast_twice Sample.JSON_parse Sample.randomByteString
            Sample.addressRegexp Sample.js_hostname
            Sample.parseLorawanMacVersion true (VStr "1.0.2") device_legacy
            0 _ _ _ H 7).
  discriminate.
Defined.

Lemma cast_keeps_other_properties_witness :
  match cast true Sample.validationSchema (Sample.context_ true "1.0.2")
             (VObj (("ids", VObj [("device_id", VStr "dev1")])
                    :: device_legacy)) 0 with
  | Normal (out, _) => get out "ids" = VObj [("device_id", VStr "dev1")]
  | TypeError => False
  end.
Proof.
  sample_cast H.
  refine (cast_keeps_other_properties Sample.JSON_parse
            Sample.randomByteString Sample.addressRegexp Sample.js_hostname
            Sample.parseLorawanMacVersion true
            (Sample.context_ true "1.0.2") _ 0 _ _ "ids" _ H).
  simpl. intuition discriminate.
Defined.

Lemma app_key_length_validated_witness :
  errors_at "root_keys.app_key.key"
    (validate Sample.validationSchema (Sample.context_ false "1.1.0")
       (VObj [("root_keys", VObj [("app_key", VObj [("key", VStr "abcd")])])])
       0)
  = [{| path := "root_keys.app_key.key"; message := validate32 |}].
Proof.
  exact (app_key_length_validated Sample.JSON_parse Sample.randomByteString
           Sample.addressRegexp Sample.js_hostname
           Sample.parseLorawanMacVersion (VStr "1.1.0")
           [("root_keys", VObj [("app_key", VObj [("key", VStr "abcd")])])]
           [("app_key", VObj [("key", VStr "abcd")])]
           [("key", VStr "abcd")] "abcd" 0 eq_refl eq_refl eq_refl).
Defined.

Lemma render_external_disables_witness :
  View.disabled
    {| View.name := "net_id"; View.placeholder := None;
       View.disabled := true; View.required := false;
       View.warning := None |} = true.
Proof.
  refine (View.render_external_disables Sample.parseLorawanMacVersion
            device_local (VBool false) _ _ eq_refl _ _).
  - simpl. right. right. left. reflexivity.
  - discriminate.
Defined.

(** A device of LoRaWAN 1.1.0 whose application key is withheld. *)
Definition device_hidden : value :=
  VObj [("lorawan_version", VStr "1.1.0");
        ("root_keys", VObj [("app_key", VObj [])])].

Definition app_key_field_hidden : View.field_props :=
  {| View.name := "root_keys.app_key.key";
     View.placeholder := Some View.unexposed;
     View.disabled := true; View.required := true;
     View.warning := None |}.

Lemma render_key_placeholder_witness :
  (View.disabled app_key_field_hidden = false
   <-> View.placeholder app_key_field_hidden
       = Some View.leaveBlankPlaceholder)
  /\ (View.placeholder app_key_field_hidden = Some View.unexposed ->
      false = false).
Proof.
  refine (View.render_key_placeholder Sample.parseLorawanMacVersion
            device_hidden false (VBool false) _ app_key_field_hidden
            eq_refl _ (or_introl eq_refl)).
  simpl. do 3 right. left. reflexivity.
Defined.

Lemma mount_state_witness :
  match sample_mount device_external with
  | Normal st0 =>
      Form.values st0 = Form.initialValues st0
      /\ Form.baseline st0 = Form.initialValues st0
      /\ Form.submitted st0 = []
      /\ Form.externalJs st0 = true
      /\ get (Form.values st0) "_external_js" = VBool (Form.externalJs st0)
  | TypeError => False
  end.
Proof.
  destruct (sample_mount device_external) as [st0 |] eqn:Hm;
    [| vm_compute in Hm; discriminate Hm].
  exact (mount_state Sample.JSON_parse Sample.randomByteString
           Sample.addressRegexp Sample.js_hostname
           Sample.parseLorawanMacVersion Sample.hasExternalJs
           device_external _ 0 st0 eq_refl Hm).
Defined.

Lemma toggle_flag_and_value_agree_witness :
  match sample_mount device_external with
  | Normal st0 =>
      let st' :=
        Form.state_of
          (Form.handleExternalJsChange Sample.JSON_parse
             Sample.randomByteString Sample.addressRegexp Sample.js_hostname
             Sample.parseLorawanMacVersion device_external
             (negb (Form.externalJs st0)) st0) in
      get (Form.values st') "_external_js" = VBool (Form.externalJs st')
  | TypeError => False
  end.
Proof.
  destruct (sample_mount device_external) as [st0 |] eqn:Hm;
    [| vm_compute in Hm; discriminate Hm].
  vm_compute in Hm. injection Hm as <-.
  eapply (toggle_flag_and_value_agree Sample.JSON_parse
            Sample.randomByteString Sample.addressRegexp Sample.js_hostname
            Sample.parseLorawanMacVersion device_external);
    [reflexivity | vm_compute; reflexivity].
Defined.

Lemma submit_diffs_against_mount_witness :
  match sample_mount device_local with
  | Normal st0 =>
      let run := Form.run Sample.JSON_parse Sample.randomByteString
                   Sample.addressRegexp Sample.js_hostname
                   Sample.parseLorawanMacVersion Sample.diff device_local in
      let es := [Form.Edit (VObj [("net_id", VStr "ffffff")]);
                 Form.Submit Form.Resolves] in
      match cast true Sample.validationSchema
              (Sample.context_ (Form.externalJs (run st0 es)) "1.1.0")
              (Form.values (run st0 es)) (Form.gen (run st0 es)) with
      | Normal (castedValues, _) =>
          Form.submitted (run st0 (es ++ [Form.Submit Form.Resolves]))
          = Form.submitted (run st0 es)
            ++ [Sample.diff (Form.initialValues st0) castedValues
                  ["_external_js"; "_lorawan_version"]]
      | TypeError => False
      end
  | TypeError => False
  end.
Proof.
  destruct (sample_mount device_local) as [st0 |] eqn:Hm;
    [| vm_compute in Hm; discriminate Hm].
  vm_compute in Hm. injection Hm as <-. cbv zeta.
  match goal with
  | |- match ?c with Normal _ => _ | TypeError => _ end =>
      destruct c as [[castedValues r'] |] eqn:H;
        [| vm_compute in H; discriminate H]
  end.
  exact (submit_diffs_against_mount Sample.JSON_parse
           Sample.randomByteString Sample.addressRegexp Sample.js_hostname
           Sample.parseLorawanMacVersion Sample.diff device_local _ _
           Form.Resolves castedValues r' H).
Defined.

Lemma submit_cast_throws_witness :
  match sample_mount device_local with
  | Normal st0 =>
      let st := Form.edit (VObj [("join_server_address", VNull)]) st0 in
      exists st',
        Form.onFormSubmit Sample.JSON_parse Sample.randomByteString
          Sample.addressRegexp Sample.js_hostname
          Sample.parseLorawanMacVersion Sample.diff device_local
          Form.Resolves st = Form.Threw st'
        /\ Form.submitted st' = []
        /\ Form.values st' = VObj [("join_server_address", VNull)]
  | TypeError => False
  end.
Proof.
  destruct (sample_mount device_local) as [st0 |] eqn:Hm;
    [| vm_compute in Hm; discriminate Hm].
  vm_compute in Hm. injection Hm as <-. cbv zeta.
  match goal with
  | |- context [Form.edit ?vs ?s] =>
      edestruct (submit_cast_throws Sample.JSON_parse
                   Sample.randomByteString Sample.addressRegexp
                   Sample.js_hostname Sample.parseLorawanMacVersion
                   Sample.diff device_local (Form.edit vs s) Form.Resolves)
        as (st' & H1 & H2 & _ & H4 & _); [vm_compute; reflexivity |]
  end.
  exists st'. repeat split; assumption.
Defined.


Lemma toggle_never_throws_witness :
  match sample_mount device_external with
  | Normal st0 =>
      exists st',
        Form.handleExternalJsChange Sample.JSON_parse
          Sample.randomByteString Sample.addressRegexp Sample.js_hostname
          Sample.parseLorawanMacVersion device_external false
          (Form.run Sample.JSON_parse Sample.randomByteString
             Sample.addressRegexp Sample.js_hostname
             Sample.parseLorawanMacVersion Sample.diff device_external st0
             [Form.Edit (VObj [("join_server_address", VNull)]);
              Form.Submit Form.Resolves])
        = Form.Returned st'
  | TypeError => False
  end.
Proof.
  destruct (sample_mount device_external) as [st0 |] eqn:Hm;
    [| vm_compute in Hm; discriminate Hm].
  destruct (toggle_never_throws Sample.JSON_parse Sample.randomByteString
              Sample.addressRegexp Sample.js_hostname
              Sample.parseLorawanMacVersion Sample.hasExternalJs Sample.diff
              device_external _ 0 st0
              [Form.Edit (VObj [("join_server_address", VNull)]);
               Form.Submit Form.Resolves] false eq_refl Hm)
    as (st' & vs & q & H & _).
  exists st'. exact H.
Defined.

(** ** An external join server on sample devices *)

Lemma cast_external_js_strips_witness :
  exists out r',
    cast true Sample.validationSchema (Sample.context_ true "1.1.0")
         device_local 0 = Normal (out, r')
    /\ (exists ps, out = VObj ps)
    /\ has out "join_server_address" = false
    /\ has out "net_id" = false
    /\ (exists ps, get out "root_keys" = VObj ps)
    /\ has (get out "root_keys") "nwk_key" = false
    /\ has (get out "root_keys") "app_key" = false.
Proof.
  destruct (cast_external_js_strips Sample.JSON_parse Sample.randomByteString
              Sample.addressRegexp Sample.js_hostname
              Sample.parseLorawanMacVersion (VStr "1.1.0")
              [("lorawan_version", VStr "1.1.0");
               ("join_server_address", VStr "js.example.com");
               ("net_id", VStr "000013");
               ("root_keys", VObj [])] 0) as [Hstrip Hret].
  destruct Hret as (out & r' & H);
    [right; exists []; reflexivity | left; reflexivity |].
  exists out, r'. split; [exact H |].
  destruct (Hstrip out r' H) as (Hobj & Hjsa & Hnet & Hrk & _).
  destruct Hrk as (Hp & Hn & Ha); [discriminate |]. auto 10.
Defined.

(** A device without [root_keys] under [externalJs = true]: the cast has a
    [root_keys], and it holds [nwk_key] and [app_key] as properties, left
    [undefined]. *)
Lemma cast_external_js_keeps_undefined_keys_counterexample :
  get device_external "root_keys" = VUndef
  /\ cast true Sample.validationSchema (Sample.context_ true "1.1.0")
          device_external 0
     = Normal
         (VObj [("_external_js", VBool true);
                ("resets_join_nonces", VBool false);
                ("root_keys", VObj [("app_key", VUndef); ("nwk_key", VUndef)]);
                ("lorawan_version", VStr "1.1.0")], 0)
  /\ has (VObj [("app_key", VUndef); ("nwk_key", VUndef)]) "nwk_key" = true
  /\ has (VObj [("app_key", VUndef); ("nwk_key", VUndef)]) "app_key" = true.
Proof. repeat split. Qed.

(** ** The checkbox toggled on sample devices *)


(** A device mounted on an external join server, the checkbox toggled to
    the console's join server, back, and to the console's again: the initial
    values were cast under [externalJs = true] and hold no keys, and each
    toggle to [false] draws keys of its own. *)
Lemma toggle_after_external_mount_draws_keys :
  match sample_run device_external [Form.ExternalJsChange false],
        sample_run device_external [Form.ExternalJsChange false;
                                    Form.ExternalJsChange true;
                                    Form.ExternalJsChange false] with
  | Some st1, Some st3 =>
      Form.externalJs st1 = false
      /\ Form.externalJs st3 = false
      /\ nwk_key_of (Form.initialValues st3) = VUndef
      /\ nwk_key_of (Form.values st1)
         = VStr "8be147ad0369cf258be147ad0369cf25"
      /\ nwk_key_of (Form.values st3)
         = VStr "69cf258be147ad0369cf258be147ad03"
  | _, _ => False
  end.
Proof.
  vm_compute. repeat split.
Qed.

